(** * Price based charging: the slot scheduler, the trip charge planner and
      the charging policy of [price_based_charging.py]

    The development embeds the scheduling core of the script: the function
    [update_charge], the planning part of one iteration of the main loop
    (the loop over the calendar events with the pool [charge_left]) and the
    tiered [if]/[elif] chain that decides what to do with the car. Around
    that core it embeds [mark_price_time], the loop of
    [get_calendar_events] that selects the events, [set_inverter_mode] over
    an inverter given by its reads and writes, the polls that follow a
    command to the car, and the chain of the policy with calls that can
    raise ([policy_run]).

    Conventions of the embedding:
    - a price slot is the dictionary built by [get_electricity_prices]; its
      key ['charge'] holds [None], [True] or [False], written here
      [UNDECIDED], [RESERVED] and [BLOCKED];
    - time stamps are seconds since the epoch, as integers;
    - Python integers are [Z]; Python floats that the script derives from
      the configuration and from the calendar (energies in kWh, prices) are
      idealised as exact rationals [Q];
    - a statement that can raise returns a [PyResult]. *)

From Stdlib Require Import ZArith QArith Qround Qminmax Lia Lqa.
From stdpp Require Import base decidable list sorting strings.

Local Open Scope Z_scope.
Set Warnings "-clear-no-such-hyp".

(** ** Python helpers *)

(** [l[a:b]] for integer bounds: a negative bound counts from the end, and
    both bounds are clamped to the length of the list. *)
Definition py_bound (len i : Z) : Z :=
  if i <? 0 then Z.max 0 (len + i) else Z.min len i.

Definition py_slice {A} (l : list A) (a b : Z) : list A :=
  let len := Z.of_nat (length l) in
  let a' := py_bound len a in
  let b' := py_bound len b in
  take (Z.to_nat (b' - a')) (drop (Z.to_nat a') l).

(** [l[:b]] *)
Definition py_slice_to {A} (l : list A) (b : Z) : list A := py_slice l 0 b.

Definition len {A} (l : list A) : Z := Z.of_nat (length l).

(** [sorted(l, key=...)]: Python's sort is stable, so its result is the one
    of any stable sort; [le] is [key x <= key y]. *)
Fixpoint insert_by {A} (le : A → A → bool) (x : A) (l : list A) : list A :=
  match l with
  | [] => [x]
  | y :: l' => if le x y then x :: y :: l' else y :: insert_by le x l'
  end.

Definition sorted {A} (le : A → A → bool) (l : list A) : list A :=
  foldr (insert_by le) [] l.

(** ** Price slots *)

Inductive Charge : Set :=
  | UNDECIDED  (* None *)
  | RESERVED   (* True *)
  | BLOCKED.   (* False *)

#[global] Instance Charge_eq_dec : EqDecision Charge.
Proof. solve_decision. Defined.

Record PriceSlot : Type := mkSlot {
  datetime : Z;
  level : string;
  price : Q;
  charge : Charge
}.

Definition set_charge (c : Charge) (p : PriceSlot) : PriceSlot :=
  {| datetime := datetime p; level := level p; price := price p; charge := c |}.

(** [key=lambda d: d['datetime']] *)
Definition by_datetime (x y : PriceSlot) : bool := datetime x <=? datetime y.

(** [key=lambda d: (d['price'], d['datetime'])], compared as tuples *)
Definition by_price_datetime (x y : PriceSlot) : bool :=
  match (price x ?= price y)%Q with
  | Lt => true
  | Eq => datetime x <=? datetime y
  | Gt => false
  end.

(** ** The slot scheduler: [update_charge] *)

(** The inner loop of the first marking pass, for one [price] of the list. *)
Definition mark_selected (selected : list PriceSlot) (p : PriceSlot) : PriceSlot :=
  fold_left
    (λ p selected_price,
       if bool_decide (datetime p = datetime selected_price)
       then set_charge RESERVED p else p)
    selected p.

(** The inner loop of the second marking pass. *)
Definition mark_away (selected : list PriceSlot) (p : PriceSlot) : PriceSlot :=
  fold_left
    (λ p selected_price,
       if bool_decide (datetime p = datetime selected_price ∧ charge p ≠ RESERVED)
       then set_charge BLOCKED p else p)
    selected p.

(** The slots chosen for charging: the cheapest [hours_needed] of the first
    [hours_budget] undecided slots. *)
Definition slots_to_charge (prices : list PriceSlot) (hours_needed hours_budget : Z)
  : list PriceSlot :=
  let hours_budget := Z.max 1 hours_budget in
  let newprices := filter (λ i, charge i = UNDECIDED) prices in
  let orderednewprices := sorted by_datetime newprices in
  let cutprices :=
    py_slice_to orderednewprices (Z.min (len orderednewprices) hours_budget) in
  let orderedcutprices := sorted by_price_datetime cutprices in
  py_slice_to orderedcutprices (Z.min (len orderedcutprices) hours_needed).

(** The list after the first marking pass. *)
Definition reserve_pass (prices : list PriceSlot) (hours_needed hours_budget : Z)
  : list PriceSlot :=
  map (mark_selected (slots_to_charge prices hours_needed hours_budget)) prices.

(** The slots of the away window, taken from the list as it is after the
    first pass. *)
Definition slots_away (prices : list PriceSlot) (hours_budget hours_duration : Z)
  : list PriceSlot :=
  let hours_budget := Z.max 1 hours_budget in
  let orderedprices := sorted by_datetime prices in
  py_slice orderedprices
    (Z.min (len orderedprices) (hours_budget + 1))
    (Z.min (len orderedprices) (hours_budget + hours_duration + 1)).

Definition block_pass (prices : list PriceSlot) (hours_budget hours_duration : Z)
  : list PriceSlot :=
  map (mark_away (slots_away prices hours_budget hours_duration)) prices.

Definition update_charge (prices : list PriceSlot)
    (hours_needed hours_budget hours_duration : Z) : list PriceSlot :=
  block_pass (reserve_pass prices hours_needed hours_budget)
             hours_budget hours_duration.

(** ** The trip charge planner *)

Inductive PyExn : Set := TypeError | IndexError | ZeroDivisionError | KeyError.

Inductive PyResult (A : Type) : Type :=
  | Ok (a : A)
  | Raise (e : PyExn).
Arguments Ok {A} a.
Arguments Raise {A} e.

#[global] Instance PyResult_ret : MRet PyResult := λ A a, Ok a.
#[global] Instance PyResult_bind : MBind PyResult := λ A B f m,
  match m with
  | Ok a => f a
  | Raise e => Raise e
  end.

(** What the price table of the database gives: no connection, or the
    rows [(datetime_from, cost_kWh_level, cost_kWh_total)]. *)
Inductive DbResult : Type :=
  | DbConnectError
  | DbRecords (records : list (Z * string * Q)).

(** The value of the variable [prices]: the integer [-1] or a list. *)
Inductive PricesValue : Type :=
  | PricesSentinel
  | PricesList (prices : list PriceSlot).

Definition get_electricity_prices (db : DbResult) : PyResult PricesValue :=
  match db with
  | DbConnectError => Ok PricesSentinel
  | DbRecords records =>
      let prices := map (λ record, mkSlot record.1.1 record.1.2 record.2 UNDECIDED) records in
      match prices with
      | [] => Raise IndexError  (* prices[0] of the logged line *)
      | _ :: _ => Ok (PricesList prices)
      end
  end.

(** A calendar event as [get_calendar_events] returns it: start and end of
    the appointment, distance in meters and travel time in seconds. *)
Record Event : Type := mkEvent {
  ev_start : Z;
  ev_end : Z;
  ev_distance : Z;
  ev_time : Z
}.

Record Config : Type := mkConfig {
  KWH_PER_KILOMETER : Q;
  BATTERY_CAPACITY : Z;
  CHARGE_RETURNING : Z;
  CHARGE_MINIMUM : Z;
  CHARGE_CHEAP : Z;
  CHARGE_DEFAULT : Z;
  CHARGE_VERY_CHEAP : Z;
  inverter_host : bool;
  google : bool   (* [google is not None] *)
}.

(** [CHARGE_AMPS_MAX * CHARGE_PHASES * CHARGE_VOLTAGE], fixed when the
    module is loaded. *)
Definition CHARGE_POWER : Q := (13 * 3 * (230 # 1000))%Q.

Definition event_depart (event : Event) : Z := ev_start event - ev_time event.
Definition event_home (event : Event) : Z := ev_end event + ev_time event.

Definition event_hours_duration (event : Event) : Z :=
  Qceiling (inject_Z (event_home event - event_depart event) / 3600).

Definition event_hours_budget (now : Z) (event : Event) : Z :=
  Qfloor (inject_Z (event_depart event - now) / 3600).

Definition event_charge_needed (cfg : Config) (event : Event) : Q :=
  ((4 + inject_Z (ev_distance event) / 1000 * KWH_PER_KILOMETER cfg) * 2)%Q.

Definition event_charge (cfg : Config) (event : Event) : Z :=
  Qceiling (Qmin (event_charge_needed cfg event) (inject_Z (BATTERY_CAPACITY cfg))).

Definition event_hours_needed (cfg : Config) (charge_left : Q) (event : Event) : Z :=
  Qceiling (Qmax (inject_Z (event_charge cfg event) - charge_left) 0 / CHARGE_POWER).

(** The sweep run when the battery is full for an event: the [for] loop
    that stops at the first slot marked [False]. *)
Fixpoint mark_full (prices : list PriceSlot) : list PriceSlot :=
  match prices with
  | [] => []
  | p :: rest =>
      if bool_decide (charge p = BLOCKED) then p :: rest
      else (if bool_decide (charge p = UNDECIDED) then set_charge BLOCKED p else p)
             :: mark_full rest
  end.

Definition charge_left_after (cfg : Config) (charge_left : Q) (event : Event) : Q :=
  Qmax (charge_left - inject_Z (event_charge cfg event))%Q 0%Q.

(** One iteration of [for event in events]. *)
Definition plan_event (cfg : Config) (now : Z)
    (st : list PriceSlot * Q) (event : Event) : list PriceSlot * Q :=
  let '(prices, charge_left) := st in
  let prices :=
    update_charge prices (event_hours_needed cfg charge_left event)
      (event_hours_budget now event) (event_hours_duration event) in
  let charge_left := charge_left_after cfg charge_left event in
  let prices := if Qeq_bool charge_left 0 then mark_full prices else prices in
  (prices, charge_left).

Definition total_distance (events : list Event) : Z :=
  foldr (λ event acc, ev_distance event + acc) 0 events.

Definition kwh_needed (cfg : Config) (events : list Event) : Q :=
  if 0 <? len events
  then ((4 * inject_Z (len events)
         + inject_Z (total_distance events) / 1000 * KWH_PER_KILOMETER cfg) * 2
        + inject_Z (CHARGE_RETURNING cfg))%Q
  else 0%Q.

(** The planning step of one cycle: from the calendar events to the new
    [charge_needed] and the annotated [prices]. *)
Definition plan (cfg : Config) (now battery_level charge_needed : Z)
    (prices : PricesValue) (events : list Event) : PyResult (Z * PricesValue) :=
  if google cfg then
    match prices with
    | PricesSentinel => Raise TypeError  (* len(prices) *)
    | PricesList prices =>
        if bool_decide (BATTERY_CAPACITY cfg = 0) then Raise ZeroDivisionError
        else
          let charge_needed :=
            Qceiling (Qmax (Qmin (kwh_needed cfg events / inject_Z (BATTERY_CAPACITY cfg) * 100) 100)
                           (inject_Z (CHARGE_MINIMUM cfg))) in
          let charge_left : Q :=
            (inject_Z ((battery_level - CHARGE_RETURNING cfg) * BATTERY_CAPACITY cfg) / 100)%Q in
          let '(prices, _) := fold_left (plan_event cfg now) events (prices, charge_left) in
          Ok (charge_needed, PricesList prices)
    end
  else Ok (charge_needed, prices).

(** ** The charging policy *)

Record CarData : Type := mkCarData {
  battery_level : Z;
  battery_limit : Z;
  charge_port_engaged : bool;   (* [cardata['charge_port'] == "Engaged"] *)
  charge_rate : Z;
  at_home : bool                (* within 0.001 degree of the home position *)
}.

Inductive Command : Set :=
  | SetChargeLimit (limit : Z)
  | WakeUp
  | InverterIdle
  | InverterActive
  | StartCharging
  | StopCharging.

Inductive Branch : Set := EventDriven | MinimumFloor | Cheap | VeryCheap | NoWindow.

(** Is the current one hour slot enabled for charging? *)
Definition charge_slot (now : Z) (prices : list PriceSlot) : bool :=
  bool_decide (Exists (λ p, datetime p ≤ now ∧ now < datetime p + 3600
                            ∧ charge p = RESERVED) prices).

(** The body shared by the four charging branches. *)
Definition charge_to (cfg : Config) (online : bool) (cardata : CarData) (limit : Z)
  : list Command :=
  (if online then [] else [WakeUp])
  ++ (if inverter_host cfg then [InverterIdle] else [])
  ++ (if bool_decide (battery_limit cardata ≠ limit) then [SetChargeLimit limit] else [])
  ++ (if bool_decide (charge_rate cardata = 0) then [StartCharging] else []).

Definition stop_charge (cfg : Config) (cardata : CarData) : list Command :=
  (if bool_decide (0 < charge_rate cardata) then [StopCharging] else [])
  ++ (if inverter_host cfg then [InverterActive] else []).

(** The chain of [if]/[elif] when every call of the branch returns: the
    branch taken, the value written to [my_limit] and the commands sent.
    [policy_run] below is the chain with calls that can raise. *)
Definition policy (cfg : Config) (online : bool) (cardata : CarData)
    (charge_needed now : Z) (prices : list PriceSlot)
  : PyResult (Branch * option Z * list Command) :=
  if bool_decide (battery_level cardata < charge_needed) && charge_slot now prices then
    Ok (EventDriven, Some charge_needed, charge_to cfg online cardata charge_needed)
  else if bool_decide (battery_level cardata < CHARGE_MINIMUM cfg) then
    Ok (MinimumFloor, Some (CHARGE_MINIMUM cfg),
        charge_to cfg online cardata (CHARGE_MINIMUM cfg))
  else
    match prices with
    | [] => Raise IndexError  (* prices[0] *)
    | p0 :: _ =>
        if bool_decide (level p0 = "CHEAP"%string)
           && bool_decide (battery_level cardata < CHARGE_CHEAP cfg) then
          Ok (Cheap, Some (CHARGE_CHEAP cfg),
              charge_to cfg online cardata (CHARGE_CHEAP cfg))
        else if bool_decide (level p0 = "VERY_CHEAP"%string)
                && bool_decide (battery_level cardata < CHARGE_VERY_CHEAP cfg) then
          Ok (VeryCheap, Some (CHARGE_VERY_CHEAP cfg),
              charge_to cfg online cardata (CHARGE_VERY_CHEAP cfg))
        else Ok (NoWindow, None, stop_charge cfg cardata)
    end.

(** ** The chain of [if]/[elif] with its calls *)

(** What ends a branch before its last statement. *)
Inductive Failure : Set :=
  | StatusFailed             (* [get_vehicle_status_from_db] raises *)
  | CallFailed (c : Command) (* the call for this command raises *)
  | DivisionByZero.          (* [CHARGE_AMPS_MAX * 3 * .230] is zero *)

(** The calls of a branch as the chain sees them: whether
    [get_vehicle_status_from_db(VIN, cursor)] returns ["online"], [None]
    when it raises, and which of [wake_up], [set_inverter_mode],
    [set_start_charging] and [set_stop_charging] raise. [set_charge_limit]
    catches every exception of its body. *)
Record Calls : Type := mkCalls {
  status_online : option bool;
  raises : Command → bool
}.

(** A run of the chain: the branch entered, the commands whose calls have
    returned, in order, and what ended the branch early, if anything. *)
Record PolicyRun : Type := mkPolicyRun {
  run_branch : Branch;
  sent : list Command;
  failure : option Failure
}.

Fixpoint do_calls (raises : Command → bool) (calls : list Command)
  : list Command * option Failure :=
  match calls with
  | [] => ([], None)
  | c :: calls =>
      if match c with SetChargeLimit _ => false | _ => raises c end
      then ([], Some (CallFailed c))
      else let '(done, f) := do_calls raises calls in (c :: done, f)
  end.

(** The body of a charging branch; [divides] for the three branches that
    first compute [hours] by a division by [CHARGE_AMPS_MAX * 3 * .230]. *)
Definition charge_branch (cfg : Config) (calls : Calls) (CHARGE_AMPS_MAX : Z)
    (cardata : CarData) (b : Branch) (limit : Z) (divides : bool) : PolicyRun :=
  if divides && bool_decide (CHARGE_AMPS_MAX = 0)
  then mkPolicyRun b [] (Some DivisionByZero)
  else
    match status_online calls with
    | None => mkPolicyRun b [] (Some StatusFailed)
    | Some online =>
        let '(done, f) :=
          do_calls (raises calls) (charge_to cfg online cardata limit) in
        mkPolicyRun b done f
    end.

(** The chain of [if]/[elif] with the calls of its branches. *)
Definition policy_run (cfg : Config) (calls : Calls) (CHARGE_AMPS_MAX : Z)
    (cardata : CarData) (charge_needed now : Z) (prices : list PriceSlot)
  : PyResult PolicyRun :=
  if bool_decide (battery_level cardata < charge_needed) && charge_slot now prices then
    Ok (charge_branch cfg calls CHARGE_AMPS_MAX cardata EventDriven charge_needed false)
  else if bool_decide (battery_level cardata < CHARGE_MINIMUM cfg) then
    Ok (charge_branch cfg calls CHARGE_AMPS_MAX cardata MinimumFloor
          (CHARGE_MINIMUM cfg) true)
  else
    match prices with
    | [] => Raise IndexError  (* prices[0] *)
    | p0 :: _ =>
        if bool_decide (level p0 = "CHEAP"%string)
           && bool_decide (battery_level cardata < CHARGE_CHEAP cfg) then
          Ok (charge_branch cfg calls CHARGE_AMPS_MAX cardata Cheap
                (CHARGE_CHEAP cfg) true)
        else if bool_decide (level p0 = "VERY_CHEAP"%string)
                && bool_decide (battery_level cardata < CHARGE_VERY_CHEAP cfg) then
          Ok (charge_branch cfg calls CHARGE_AMPS_MAX cardata VeryCheap
                (CHARGE_VERY_CHEAP cfg) true)
        else
          let '(done, f) := do_calls (raises calls) (stop_charge cfg cardata) in
          Ok (mkPolicyRun NoWindow done f)
    end.

(** The car answers online and no call raises. *)
Definition quiet_calls : Calls := mkCalls (Some true) (λ _, false).

(** ** One iteration of the main loop *)

(** What survives from one iteration to the next. *)
Record LoopState : Type := mkLoopState {
  car_away : bool;
  charge_needed : Z;
  my_limit : option Z
}.

(** [car_away = False], [charge_needed = CHARGE_MINIMUM] *)
Definition initial_state (cfg : Config) : LoopState :=
  mkLoopState false (CHARGE_MINIMUM cfg) None.

(** What one iteration reads from outside. *)
Record CycleInput : Type := mkCycleInput {
  cardata : CarData;
  car_online : bool;        (* [get_vehicle_status_from_db(...) == "online"] *)
  price_source : DbResult;
  events : list Event;      (* the events of [get_calendar_events] *)
  now : Z
}.

Inductive Verdict : Set :=
  | NotAtHome
  | CableNotConnected
  | UserOverride
  | Policy (b : Branch).

Record CycleResult : Type := mkCycleResult {
  verdict : Verdict;
  commands : list Command;
  next_state : LoopState
}.

(** The test on the charge limit: is it none of the limits the script
    itself works with? *)
Definition user_override (cfg : Config) (current_limit charge_needed : Z) : bool :=
  bool_decide (current_limit ≠ CHARGE_DEFAULT cfg ∧ current_limit ≠ CHARGE_CHEAP cfg
               ∧ current_limit ≠ CHARGE_VERY_CHEAP cfg ∧ current_limit ≠ charge_needed).

(** From [prices = get_electricity_prices()] to the end of the iteration. *)
Definition charging_logic (cfg : Config) (st : LoopState) (inp : CycleInput)
  : PyResult (Branch * list Command * LoopState) :=
  prices ← get_electricity_prices (price_source inp);
  planned ← plan cfg (now inp) (battery_level (cardata inp)) (charge_needed st)
              prices (events inp);
  match planned.2 with
  | PricesSentinel => Raise TypeError  (* for price in prices *)
  | PricesList prices =>
      action ← policy cfg (car_online inp) (cardata inp) planned.1 (now inp) prices;
      let '(b, limit, cmds) := action in
      Ok (b, cmds,
          mkLoopState false planned.1
            (match limit with Some l => Some l | None => my_limit st end))
  end.

Definition cycle (cfg : Config) (st : LoopState) (inp : CycleInput)
  : PyResult CycleResult :=
  if negb (at_home (cardata inp)) then
    Ok (mkCycleResult NotAtHome
          (if car_away st then [] else [SetChargeLimit (CHARGE_DEFAULT cfg)])
          (mkLoopState true (charge_needed st) (my_limit st)))
  else
    let reset := if car_away st then [SetChargeLimit (CHARGE_DEFAULT cfg)] else [] in
    let st := mkLoopState false (charge_needed st) (my_limit st) in
    if negb (charge_port_engaged (cardata inp)) then
      Ok (mkCycleResult CableNotConnected reset st)
    else if user_override cfg (battery_limit (cardata inp)) (charge_needed st) then
      Ok (mkCycleResult UserOverride reset st)
    else
      r ← charging_logic cfg st inp;
      let '(b, cmds, st') := r in
      Ok (mkCycleResult (Policy b) (reset ++ cmds) st').

(** The vehicle between two iterations: a limit that was set is the limit
    the next refresh of [cardata] shows. *)
Definition limit_after (cmds : list Command) (current_limit : Z) : Z :=
  fold_left (λ l c, match c with SetChargeLimit l' => l' | _ => l end) cmds current_limit.

(** ** Measures and scenarios used by the statements *)

Definition undecided (prices : list PriceSlot) : list PriceSlot :=
  filter (λ i, charge i = UNDECIDED) prices.

(** The deadline window: the first [max(1, hours_budget)] undecided slots
    by start time ([cutprices] of the first pass). *)
Definition deadline_window (prices : list PriceSlot) (hours_budget : Z) : list PriceSlot :=
  let orderednewprices := sorted by_datetime (undecided prices) in
  py_slice_to orderednewprices (Z.min (len orderednewprices) (Z.max 1 hours_budget)).

(** How many slots are marked for charging in [after] and were not in
    [before], position by position. *)
Definition newly_reserved (before after : list PriceSlot) : Z :=
  len (filter (λ ba, charge ba.1 ≠ RESERVED ∧ charge ba.2 = RESERVED) (zip before after)).

(** A sequence of calls of [update_charge], each with its
    [(hours_needed, hours_budget, hours_duration)]. *)
Definition update_charges (prices : list PriceSlot) (calls : list (Z * Z * Z))
  : list PriceSlot :=
  fold_left (λ prices c, update_charge prices c.1.1 c.1.2 c.2) calls prices.

(** The position of the first slot marked [False], or the length. *)
Fixpoint first_blocked (prices : list PriceSlot) : nat :=
  match prices with
  | [] => 0
  | p :: rest => if bool_decide (charge p = BLOCKED) then 0 else S (first_blocked rest)
  end.

Definition block_undecided (p : PriceSlot) : PriceSlot :=
  if bool_decide (charge p = UNDECIDED) then set_charge BLOCKED p else p.

Definition positions (c : Charge) (prices : list PriceSlot) : list nat :=
  (filter (λ ip : nat * PriceSlot, charge ip.2 = c) (imap (λ i p, (i, p)) prices)).*1.

(** Hourly slots, all undecided, from hour [start] on. *)
Definition hour (i : Z) : Z := 3600 * i.

Definition hourly (start : Z) (l : list (string * Q)) : list PriceSlot :=
  imap (λ i lp, mkSlot (hour (start + Z.of_nat i)) lp.1 lp.2 UNDECIDED) l.

Definition day_prices (rest : list (string * Q)) : list PriceSlot :=
  hourly 0
    ([("NORMAL"%string, 10 # 100); ("CHEAP"%string, 5 # 100);
      ("EXPENSIVE"%string, 30 # 100); ("CHEAP"%string, 8 # 100)]%Q ++ rest).

Definition charges (prices : list PriceSlot) : list Charge := charge <$> prices.

(** The configuration the script starts with, the calendar being there. *)
Definition default_config : Config :=
  {| KWH_PER_KILOMETER := 250 # 1000; BATTERY_CAPACITY := 100;
     CHARGE_RETURNING := 10; CHARGE_MINIMUM := 32; CHARGE_CHEAP := 49;
     CHARGE_DEFAULT := 50; CHARGE_VERY_CHEAP := 98;
     inverter_host := true; google := true |}.

Definition flat_rest : list (string * Q) :=
  replicate 20 ("NORMAL"%string, (20 # 100)%Q).

(** What the scenario of the 24 hourly slots is expected to give. *)
Definition reserved_1_3_blocked_4_8 (after : list PriceSlot) : Prop :=
  charges after !! 1%nat = Some RESERVED
  ∧ charges after !! 3%nat = Some RESERVED
  ∧ (∀ i, (4 ≤ i ≤ 8)%nat → charges after !! i = Some BLOCKED)
  ∧ charges after !! 2%nat = Some UNDECIDED.

Definition reserved_0_1_blocked_4_8 : list Charge :=
  [RESERVED; RESERVED; UNDECIDED; UNDECIDED]
  ++ replicate 5 BLOCKED ++ replicate 15 UNDECIDED.

(** Slots of one start time carry one mark. So it is in a list of unique
    start times, in the list [get_electricity_prices] returns, where every
    mark is [None], and in every list [update_charge] makes of such a list,
    since it marks by start time. *)
Definition marks_by_datetime (prices : list PriceSlot) : Prop :=
  ∀ p q, p ∈ prices → q ∈ prices → datetime p = datetime q → charge p = charge q.

(** Five hours, the first and the third decided by an earlier call. *)
Definition mixed_slots : list PriceSlot :=
  [mkSlot (hour 0) "NORMAL" (10 # 100) RESERVED;
   mkSlot (hour 1) "CHEAP" (5 # 100) UNDECIDED;
   mkSlot (hour 2) "NORMAL" (12 # 100) BLOCKED;
   mkSlot (hour 3) "EXPENSIVE" (30 # 100) UNDECIDED;
   mkSlot (hour 4) "CHEAP" (8 # 100) UNDECIDED].

(** Twelve hours of prices as the database gives them, the current hour
    being the most expensive one. *)
Definition price_records : list (Z * string * Q) :=
  imap (λ i lp, (hour (Z.of_nat i), lp.1, lp.2))
    ([("EXPENSIVE"%string, 30 # 100); ("NORMAL"%string, 20 # 100);
      ("NORMAL"%string, 21 # 100); ("NORMAL"%string, 19 # 100);
      ("NORMAL"%string, 18 # 100); ("NORMAL"%string, 22 # 100)]%Q
     ++ replicate 6 ("NORMAL"%string, (25 # 100)%Q)).

Definition twelve_hours : list PriceSlot := hourly 0 ((λ r, (r.1.2, r.2)) <$> price_records).

(** An appointment from hour 8 to hour 10, 84 km and one hour away. *)
Definition trip : Event :=
  {| ev_start := hour 8; ev_end := hour 10; ev_distance := 84000; ev_time := 3600 |}.

(** Ten minutes into hour 0: the car is at home, plugged in, at 20% with
    the default limit, and the calendar holds [trip]. *)
Definition first_cycle : CycleInput :=
  {| cardata := {| battery_level := 20; battery_limit := 50;
                   charge_port_engaged := true; charge_rate := 0; at_home := true |};
     car_online := true;
     price_source := DbRecords price_records;
     events := [trip];
     now := 600 |}.

(** Ten minutes later: the car shows the limit it was given, and 21%. *)
Definition second_cycle (limit : Z) : CycleInput :=
  {| cardata := {| battery_level := 21; battery_limit := limit;
                   charge_port_engaged := true; charge_rate := 11; at_home := true |};
     car_online := true;
     price_source := DbRecords price_records;
     events := [trip];
     now := 1200 |}.

(** The same car when the price database cannot be reached. *)
Definition no_prices_cycle : CycleInput :=
  {| cardata := cardata first_cycle;
     car_online := true;
     price_source := DbConnectError;
     events := [trip];
     now := 600 |}.

(** Two hours of prices, the current hour marked for charging. *)
Definition reserved_now : list PriceSlot :=
  [mkSlot (hour 0) "EXPENSIVE" (30 # 100) RESERVED;
   mkSlot (hour 1) "NORMAL" (20 # 100) UNDECIDED].

(** ** [mark_price_time] *)

(** [mark_price_time(prices, datetime, charge)], [charge] being [True],
    [False] or [None]. *)
Definition mark_price_time (prices : list PriceSlot) (dt : Z) (c : Charge)
  : list PriceSlot :=
  map (λ p, if bool_decide (datetime p = dt)
            then match c with
                 | RESERVED => set_charge RESERVED p
                 | BLOCKED => set_charge BLOCKED p
                 | UNDECIDED => set_charge UNDECIDED p
                 end
            else p)
    prices.

(** ** The events of the calendar: the loop of [get_calendar_events] *)

(** An item of the calendar as the loop reads it, with the answer of
    [get_directions] for its location. *)
Record CalendarItem : Type := mkItem {
  item_summary : option string;   (* [event["summary"]], if the key is there *)
  item_location : option string;  (* [event["location"]], if the key is there *)
  item_timed : bool;              (* ['T' in str(event["start"])] *)
  item_start : Z;
  item_end : Z;
  item_route : Z * Z              (* (distance in meters, duration in seconds) *)
}.

(** [sub in s] on strings *)
Definition py_in (sub s : string) : bool :=
  match String.index 0 sub s with
  | Some _ => true
  | None => false
  end.

(** A [for] loop whose body can raise. *)
Fixpoint for_each {S X} (body : S → X → PyResult S) (xs : list X) (s : S)
  : PyResult S :=
  match xs with
  | [] => Ok s
  | x :: xs => s' ← body s x; for_each body xs s'
  end.

Definition recharges (cfg : Config) (distance : Z) : Z :=
  Qfloor (inject_Z distance / 1000 * KWH_PER_KILOMETER cfg
          / inject_Z (BATTERY_CAPACITY cfg)).

(** The body of [for event in events], on [(total_distance, valid_events)].
    Each way through it reads [event["summary"]] before it changes
    anything. *)
Definition add_event (cfg : Config) (acc : Z * list Event) (item : CalendarItem)
  : PyResult (Z * list Event) :=
  match item_summary item with
  | None => Raise KeyError
  | Some _ =>
      match item_location item with
      | Some location =>
          if negb (py_in "http" location) && item_timed item then
            let '(distance, time) := item_route item in
            if bool_decide (100 < time) then
              if bool_decide (BATTERY_CAPACITY cfg = 0) then Raise ZeroDivisionError
              else
                let time :=
                  if bool_decide (0 < recharges cfg distance)
                  then time + recharges cfg distance * 3600 else time in
                Ok (acc.1 + distance,
                    acc.2 ++ [mkEvent (item_start item) (item_end item) distance time])
            else Ok acc
          else Ok acc
      | None => Ok acc
      end
  end.

(** [get_calendar_events] from the list of calendars on: [None] when the
    calendar is not among them, else the items of the calendar. *)
Definition get_calendar_events (cfg : Config) (calendar : option (list CalendarItem))
  : PyResult (Z * list Event) :=
  match calendar with
  | None => Ok (0, [])
  | Some items => for_each (add_event cfg) items (0, [])
  end.

(** Start, end and distance of an event, and of an item of the calendar. *)
Definition route_of (e : Event) : Z * Z * Z := (ev_start e, ev_end e, ev_distance e).
Definition route_to (item : CalendarItem) : Z * Z * Z :=
  (item_start item, item_end item, (item_route item).1).

(** ** The home battery: [set_inverter_mode] *)

Inductive Register : Set := storage_control_mode | rc_cmd_mode.

(** ['active'], or any other value of [mode] *)
Inductive InverterMode : Set := active | idle.

(** The inverter behind [inverter.read] and [inverter.write]; [None] is an
    exception of the transport, which leaves the device as it is. *)
Record Inverter (D : Type) : Type := mkInverter {
  inv_read : D → Register → option Z;
  inv_write : D → Register → Z → option D
}.
Arguments inv_read {D} _ _ _.
Arguments inv_write {D} _ _ _ _.

Inductive InverterResult (D : Type) : Type :=
  | Returned (d : D)
  | TransportError         (* an exception of the transport, not caught *)
  | FormatTypeError.       (* [TypeError] of the [%] operator *)
Arguments Returned {D} d.
Arguments TransportError {D}.
Arguments FormatTypeError {D}.

(** [set_inverter_mode(inverter, mode)] once [inverter.connect()] has
    returned; [stored_battery_mode] is the global of that name. *)
Definition set_inverter_mode {D} (inverter : Inverter D)
    (stored_battery_mode : Z * Z) (mode : InverterMode) (d : D) : InverterResult D :=
  match mode with
  | active =>
      match inv_write inverter d storage_control_mode stored_battery_mode.1 with
      | None => Returned d
      | Some d =>
          match inv_write inverter d rc_cmd_mode stored_battery_mode.2 with
          | None => Returned d
          | Some d => Returned d
          end
      end
  | idle =>
      match inv_read inverter d storage_control_mode with
      | None => TransportError
      | Some mode_read =>
          match (if bool_decide (mode_read ≠ 4)
                 then inv_write inverter d storage_control_mode 4 else Some d) with
          | None => TransportError
          | Some d =>
              match inv_write inverter d rc_cmd_mode 0 with
              | None => Returned d
              | Some d =>
                  match inv_read inverter d rc_cmd_mode with
                  | None => Returned d
                  | Some value =>
                      (* the message has one [%s] for two values *)
                      if bool_decide (value ≠ 0) then FormatTypeError else Returned d
                  end
              end
          end
      end
  end.

(** An inverter that stores what is written:
    [(storage_control_mode, rc_cmd_mode)]. *)
Definition registers : Inverter (Z * Z) :=
  {| inv_read d r :=
       Some (match r with storage_control_mode => d.1 | rc_cmd_mode => d.2 end);
     inv_write d r v :=
       Some (match r with
             | storage_control_mode => (v, d.2)
             | rc_cmd_mode => (d.1, v)
             end) |}.

(** An inverter that takes every write and keeps its command mode. *)
Definition deaf_registers : Inverter (Z * Z) :=
  {| inv_read d r :=
       Some (match r with storage_control_mode => d.1 | rc_cmd_mode => d.2 end);
     inv_write d r v :=
       Some (match r with
             | storage_control_mode => (v, d.2)
             | rc_cmd_mode => d
             end) |}.

(** ** The polls after a command *)

(** How such a loop ends: by [break], after its last turn, or by an
    exception of the read, which also ends the function around it. *)
Inductive PollEnd : Set := Broke | Exhausted | PollRaised.

(** [for _ in range(attempts): a = get(); if ok(a): break; sleep(...)]:
    the number of sleeps, and how the loop ends. [answer k] is what the
    poll number [k] reads, [None] when the read raises. *)
Fixpoint poll {A} (ok : A → bool) (answer : nat → option A) (first attempts : nat)
  : nat * PollEnd :=
  match attempts with
  | O => (O, Exhausted)
  | S attempts =>
      match answer first with
      | None => (O, PollRaised)
      | Some a =>
          if ok a then (O, Broke)
          else let '(sleeps, ended) := poll ok answer (S first) attempts in
               (S sleeps, ended)
      end
  end.

(** The loop of [wake_up]: seconds slept and how it ends. [status k] is
    [None] when [get_vehicle_status_from_tessie] raises, else what it
    returns: ["online"], ["offline"] or [None]. *)
Definition wake_up_poll (status : nat → option (option string)) : Z * PollEnd :=
  let r := poll (λ s, bool_decide (s = Some "online"%string)) status 0 10 in
  (5 * Z.of_nat r.1, r.2).

(** The loop of [set_start_charging]. [current k] is [None] when
    [get_vehicle_data_from_tessie] raises; else it is what the [try] of the
    loop gets: [cardata['charger_actual_current']], or [None] when there
    is no [cardata] or no number in it, which the [try] catches. *)
Definition start_charging_poll (current : nat → option (option Z)) : Z * PollEnd :=
  let r := poll (λ c, match c with Some c => bool_decide (0 < c) | None => false end)
             current 0 10 in
  (10 * Z.of_nat r.1, r.2).

Definition stop_charging_poll (current : nat → option (option Z)) : Z * PollEnd :=
  let r := poll (λ c, match c with Some c => bool_decide (c = 0) | None => false end)
             current 0 10 in
  (10 * Z.of_nat r.1, r.2).

(** A day of the calendar: an appointment with a link for location, one
    next door, and a trip of 500 km. *)
Definition calendar_day : list CalendarItem :=
  [mkItem (Some "Call"%string) (Some "https://meet.example/abc"%string) true
     (hour 9) (hour 10) (0, 0);
   mkItem (Some "Dentist"%string) (Some "Dorpsstraat 1"%string) true
     (hour 11) (hour 12) (400, 60);
   mkItem (Some "Customer"%string) (Some "Groningen"%string) true
     (hour 14) (hour 16) (500000, 18000)].

(** ** Several iterations of the main loop *)

(** The loop over the inputs of successive iterations, as long as none
    raises: the state carried to the next one. *)
Definition run (cfg : Config) (st : LoopState) (inputs : list CycleInput)
  : PyResult LoopState :=
  for_each (λ st inp, r ← cycle cfg st inp; Ok (next_state r)) inputs st.

(** * Properties *)

(** A decidable statement about closed data, settled by evaluation. *)
Ltac by_evaluation := apply (bool_decide_unpack _); vm_compute; exact I.

(** ** Slices and sorting *)

Section python_lists.
Context {A : Type}.
Implicit Types l : list A.

Lemma py_slice_sublist l a b : py_slice l a b `sublist_of` l.
Proof.
  unfold py_slice. etrans; [apply sublist_take | apply sublist_drop].
Qed.

Lemma py_slice_to_take l k :
  0 ≤ k → py_slice_to l (Z.min (len l) k) = take (Z.to_nat k) l.
Proof.
  intros Hk. unfold py_slice_to, py_slice, len.
  set (n := Z.of_nat (length l)).
  assert (0 ≤ n) as Hn by (subst n; lia).
  assert (py_bound n 0 = 0) as -> by (unfold py_bound; cbn; lia).
  assert (py_bound n (Z.min n k) = Z.min n k) as ->.
  { unfold py_bound. destruct (Z.ltb_spec (Z.min n k) 0); lia. }
  change (Z.to_nat 0) with 0%nat. rewrite drop_0, Z.sub_0_r.
  destruct (decide (k ≤ n)) as [Hle|Hgt].
  - by rewrite Z.min_r.
  - rewrite Z.min_l by lia. unfold n in *. rewrite Nat2Z.id.
    rewrite !take_ge; [done|lia..].
Qed.

Lemma insert_by_perm (le : A → A → bool) x l : insert_by le x l ≡ₚ x :: l.
Proof.
  induction l as [|y l IH]; cbn; [done|].
  destruct (le x y); [done|]. rewrite IH. apply Permutation_swap.
Qed.

Lemma sorted_perm (le : A → A → bool) l : sorted le l ≡ₚ l.
Proof.
  induction l as [|x l IH]; cbn; [done|].
  by rewrite insert_by_perm, IH.
Qed.

Lemma sorted_length (le : A → A → bool) l : length (sorted le l) = length l.
Proof. by rewrite sorted_perm. Qed.
End python_lists.

(** ** The two marking passes, slot by slot *)

Lemma set_charge_same p : set_charge (charge p) p = p.
Proof. by destruct p. Qed.

Lemma mark_selected_set selected p :
  mark_selected selected p = set_charge (charge (mark_selected selected p)) p.
Proof.
  unfold mark_selected. revert p.
  induction selected as [|s selected IH]; intros p; cbn.
  - by rewrite set_charge_same.
  - case_bool_decide; [|done]. by rewrite IH at 1.
Qed.

Lemma mark_selected_charge selected p :
  charge (mark_selected selected p)
  = if bool_decide (datetime p ∈ datetime <$> selected) then RESERVED else charge p.
Proof.
  unfold mark_selected. revert p.
  induction selected as [|s selected IH]; intros p; cbn.
  - by rewrite bool_decide_eq_false_2 by apply not_elem_of_nil.
  - rewrite IH.
    destruct (decide (datetime p = datetime s)) as [Heq|Hne].
    + rewrite (bool_decide_eq_true_2 (datetime p = _)) by done. cbn.
      rewrite (bool_decide_eq_true_2 (_ ∈ _ :: _))
        by (apply elem_of_cons; by left).
      by destruct (bool_decide _).
    + rewrite (bool_decide_eq_false_2 (datetime p = _)) by done.
      erewrite bool_decide_ext; [done|].
      rewrite elem_of_cons. tauto.
Qed.

Lemma mark_away_set selected p :
  mark_away selected p = set_charge (charge (mark_away selected p)) p.
Proof.
  unfold mark_away. revert p.
  induction selected as [|s selected IH]; intros p; cbn.
  - by rewrite set_charge_same.
  - case_bool_decide; [|done]. by rewrite IH at 1.
Qed.

Lemma mark_away_charge selected p :
  charge (mark_away selected p)
  = if bool_decide (datetime p ∈ datetime <$> selected ∧ charge p ≠ RESERVED)
    then BLOCKED else charge p.
Proof.
  unfold mark_away. revert p.
  induction selected as [|s selected IH]; intros p; cbn.
  - rewrite bool_decide_eq_false_2; [done|]. intros [[]%not_elem_of_nil _].
  - rewrite IH.
    destruct (decide (datetime p = datetime s ∧ charge p ≠ RESERVED)) as [[Heq Hc]|Hne].
    + rewrite (bool_decide_eq_true_2 (datetime p = _ ∧ _)) by done. cbn.
      rewrite (bool_decide_eq_true_2 (_ ∈ _ :: _ ∧ _))
        by (rewrite elem_of_cons; tauto).
      by destruct (bool_decide _).
    + rewrite (bool_decide_eq_false_2 (datetime p = _ ∧ _)) by done.
      erewrite bool_decide_ext; [done|].
      rewrite elem_of_cons. tauto.
Qed.

Lemma mark_selected_reserved selected p :
  charge p = RESERVED → mark_selected selected p = p.
Proof.
  intros Hp. rewrite mark_selected_set, mark_selected_charge, Hp.
  rewrite <-Hp. destruct (bool_decide _); apply set_charge_same.
Qed.

Lemma mark_away_decided selected p :
  charge p ≠ UNDECIDED → mark_away selected p = p.
Proof.
  intros Hp. rewrite mark_away_set, mark_away_charge.
  case_bool_decide as Hc; [|apply set_charge_same].
  destruct Hc as [_ Hc]. destruct (charge p) eqn:E; try done.
  rewrite <-E. apply set_charge_same.
Qed.

(** The charge of a slot after the whole call. *)
Lemma update_charge_lookup prices hours_needed hours_budget hours_duration i :
  update_charge prices hours_needed hours_budget hours_duration !! i
  = (λ p, mark_away
            (slots_away (reserve_pass prices hours_needed hours_budget)
               hours_budget hours_duration)
            (mark_selected (slots_to_charge prices hours_needed hours_budget) p))
    <$> prices !! i.
Proof.
  unfold update_charge, block_pass. unfold reserve_pass at 2.
  rewrite !list_lookup_fmap. by destruct (prices !! i).
Qed.

Lemma update_charge_datetimes prices hours_needed hours_budget hours_duration :
  datetime <$> update_charge prices hours_needed hours_budget hours_duration
  = datetime <$> prices.
Proof.
  apply list_eq; intros i.
  rewrite !list_lookup_fmap, update_charge_lookup.
  destruct (prices !! i) as [p|]; [cbn|done].
  by rewrite mark_away_set, mark_selected_set.
Qed.

(** The chosen slots are undecided slots of the list. *)
Lemma slots_to_charge_sub prices hours_needed hours_budget :
  slots_to_charge prices hours_needed hours_budget ⊆+ undecided prices.
Proof.
  unfold slots_to_charge.
  etrans; [apply sublist_submseteq, py_slice_sublist|].
  rewrite sorted_perm.
  etrans; [apply sublist_submseteq, py_slice_sublist|].
  by rewrite sorted_perm.
Qed.

Lemma slots_to_charge_elem prices hours_needed hours_budget s :
  s ∈ slots_to_charge prices hours_needed hours_budget →
  s ∈ prices ∧ charge s = UNDECIDED.
Proof.
  intros Hs. eapply elem_of_submseteq in Hs; [|apply slots_to_charge_sub].
  apply list_elem_of_filter in Hs. tauto.
Qed.

Lemma NoDup_fmap_eq {A B} (f : A → B) (l : list A) x y :
  NoDup (f <$> l) → x ∈ l → y ∈ l → f x = f y → x = y.
Proof.
  induction l as [|z l IH]; intros Hnd Hx Hy Hf; [by apply elem_of_nil in Hx|].
  rewrite fmap_cons in Hnd. apply NoDup_cons in Hnd as [Hz Hnd].
  apply elem_of_cons in Hx as [->|Hx]; apply elem_of_cons in Hy as [->|Hy];
    try done.
  - destruct Hz. rewrite Hf. by apply list_elem_of_fmap_2.
  - destruct Hz. rewrite <-Hf. by apply list_elem_of_fmap_2.
  - by apply IH.
Qed.

(** With unique start times, the first pass marks the chosen slots and no
    other slot. *)
Lemma mark_selected_unique prices hours_needed hours_budget p :
  NoDup (datetime <$> prices) → p ∈ prices →
  datetime p ∈ datetime <$> slots_to_charge prices hours_needed hours_budget →
  p ∈ slots_to_charge prices hours_needed hours_budget.
Proof.
  intros Hnd Hp (s & Hdt & Hs)%list_elem_of_fmap.
  destruct (slots_to_charge_elem _ _ _ _ Hs) as [Hsp _].
  by rewrite (NoDup_fmap_eq datetime prices p s Hnd Hp Hsp Hdt).
Qed.

Lemma update_charge_decided prices hours_needed hours_budget hours_duration i p :
  NoDup (datetime <$> prices) →
  prices !! i = Some p → charge p ≠ UNDECIDED →
  update_charge prices hours_needed hours_budget hours_duration !! i = Some p.
Proof.
  intros Hnd Hi Hp. rewrite update_charge_lookup, Hi. cbn. f_equal.
  assert (mark_selected (slots_to_charge prices hours_needed hours_budget) p = p) as ->.
  { rewrite mark_selected_set, mark_selected_charge.
    case_bool_decide as Hdt; [|apply set_charge_same].
    apply mark_selected_unique in Hdt; [|done|by eapply list_elem_of_lookup_2].
    by apply slots_to_charge_elem in Hdt as [_ ?]. }
  by apply mark_away_decided.
Qed.

Lemma update_charge_reserved prices hours_needed hours_budget hours_duration i p :
  prices !! i = Some p → charge p = RESERVED →
  update_charge prices hours_needed hours_budget hours_duration !! i = Some p.
Proof.
  intros Hi Hp. rewrite update_charge_lookup, Hi. cbn. f_equal.
  rewrite mark_selected_reserved by done.
  apply mark_away_decided. by rewrite Hp.
Qed.

Lemma update_charges_datetimes prices calls :
  datetime <$> update_charges prices calls = datetime <$> prices.
Proof.
  unfold update_charges. revert prices.
  induction calls as [|c calls IH]; intros prices; cbn; [done|].
  by rewrite IH, update_charge_datetimes.
Qed.

Lemma positions_spec c prices i :
  i ∈ positions c prices ↔ ∃ p, prices !! i = Some p ∧ charge p = c.
Proof.
  unfold positions. rewrite list_elem_of_fmap. split.
  - intros ([j p] & -> & [Hc Hin]%list_elem_of_filter).
    apply list_elem_of_lookup in Hin as [k Hk].
    rewrite list_lookup_imap in Hk.
    destruct (prices !! k) as [q|] eqn:Hq; [|done].
    cbn in Hk. injection Hk as <- <-. eauto.
  - intros (p & Hi & Hc). exists (i, p). split; [done|].
    apply list_elem_of_filter. split; [done|].
    apply list_elem_of_lookup. exists i.
    by rewrite list_lookup_imap, Hi.
Qed.

(** ** Counting the slots one call reserves *)

Lemma zip_fmap_filter_length {A} (g : A → A) (P : A * A → Prop)
    `{!∀ x, Decision (P x)} (l : list A) :
  length (filter P (zip l (g <$> l))) = length (filter (λ x, P (x, g x)) l).
Proof.
  induction l as [|x l IH]; [done|].
  cbn [fmap list_fmap zip zip_with]. rewrite !filter_cons.
  destruct (decide (P (x, g x))); cbn; by rewrite IH.
Qed.

Lemma slots_to_charge_NoDup prices hours_needed hours_budget :
  NoDup prices → NoDup (slots_to_charge prices hours_needed hours_budget).
Proof.
  intros Hnd. unfold slots_to_charge.
  eapply sublist_NoDup; [|apply py_slice_sublist]. rewrite sorted_perm.
  eapply sublist_NoDup; [|apply py_slice_sublist]. rewrite sorted_perm.
  by apply NoDup_filter.
Qed.

Lemma deadline_window_length prices hours_budget :
  len (deadline_window prices hours_budget)
  = Z.min (Z.max 1 hours_budget) (len (undecided prices)).
Proof.
  unfold deadline_window. rewrite py_slice_to_take by lia.
  unfold len. rewrite length_take, sorted_length. lia.
Qed.

Lemma slots_to_charge_length prices hours_needed hours_budget :
  0 ≤ hours_needed →
  len (slots_to_charge prices hours_needed hours_budget)
  = Z.min hours_needed (len (deadline_window prices hours_budget)).
Proof.
  intros Hn. unfold slots_to_charge. fold (undecided prices).
  fold (deadline_window prices hours_budget).
  rewrite py_slice_to_take by done.
  unfold len. rewrite length_take, sorted_length. lia.
Qed.

(** With unique start times, the slots that turn [RESERVED] in a call are
    the chosen ones. *)
Lemma newly_reserved_chosen prices hours_needed hours_budget hours_duration :
  NoDup (datetime <$> prices) →
  newly_reserved prices (update_charge prices hours_needed hours_budget hours_duration)
  = len (slots_to_charge prices hours_needed hours_budget).
Proof.
  intros Hnd. unfold newly_reserved, update_charge, block_pass.
  unfold reserve_pass at 2. rewrite <-list_fmap_compose.
  unfold len. rewrite zip_fmap_filter_length. f_equal.
  apply Permutation_length, NoDup_Permutation.
  - apply NoDup_filter. by eapply NoDup_fmap_1.
  - apply slots_to_charge_NoDup. by eapply NoDup_fmap_1.
  - intros p. rewrite list_elem_of_filter. cbn.
    rewrite mark_away_charge, mark_selected_charge. split.
    + intros [[Hp Hc] Hin]. apply mark_selected_unique; [done..|].
      destruct (decide (datetime p ∈
        datetime <$> slots_to_charge prices hours_needed hours_budget)); [done|].
      rewrite (bool_decide_eq_false_2 (_ ∈ _)) in Hc by done.
      by case_bool_decide.
    + intros Hin. destruct (slots_to_charge_elem _ _ _ _ Hin) as [Hp Hc].
      split; [|done]. split; [by rewrite Hc|].
      rewrite (bool_decide_eq_true_2 (_ ∈ _)) by by apply list_elem_of_fmap_2.
      rewrite bool_decide_eq_false_2; [done|]. tauto.
Qed.

(** ** The slot scheduler *)

(** C1. With unique start times and [hours_needed >= 0], one call of
    [update_charge] newly marks exactly
    [min(hours_needed, max(1, hours_budget), number of undecided slots)]
    slots for charging, which is [min(hours_needed, size of the deadline
    window)], the window being the first [max(1, hours_budget)] undecided
    slots by start time. *)
Theorem reserve_count prices hours_needed hours_budget hours_duration :
  NoDup (datetime <$> prices) → 0 ≤ hours_needed →
  newly_reserved prices (update_charge prices hours_needed hours_budget hours_duration)
  = Z.min hours_needed (Z.min (Z.max 1 hours_budget) (len (undecided prices)))
  ∧ newly_reserved prices (update_charge prices hours_needed hours_budget hours_duration)
    = Z.min hours_needed (len (deadline_window prices hours_budget)).
Proof.
  intros Hnd Hn. rewrite newly_reserved_chosen by done.
  rewrite slots_to_charge_length by done.
  by rewrite deadline_window_length.
Qed.

Lemma reserve_count_witness :
  NoDup (datetime <$> mixed_slots) ∧ 0 ≤ 2
  ∧ newly_reserved mixed_slots (update_charge mixed_slots 2 7 1) = 2.
Proof.
  assert (NoDup (datetime <$> mixed_slots)) as Hnd
    by (by_evaluation).
  split; [exact Hnd|]. split; [lia|].
  exact (proj1 (reserve_count mixed_slots 2 7 1 Hnd ltac:(lia))).
Defined.

Lemma update_charge_elem prices hours_needed hours_budget hours_duration q :
  q ∈ update_charge prices hours_needed hours_budget hours_duration →
  ∃ p, p ∈ prices ∧ datetime q = datetime p
       ∧ charge q
         = (let reserved :=
              if bool_decide
                   (datetime p ∈ datetime <$>
                      slots_to_charge prices hours_needed hours_budget)
              then RESERVED else charge p in
            if bool_decide
                 (datetime p ∈ datetime <$>
                    slots_away (reserve_pass prices hours_needed hours_budget)
                      hours_budget hours_duration
                  ∧ reserved ≠ RESERVED)
            then BLOCKED else reserved).
Proof.
  intros [i Hi]%list_elem_of_lookup. rewrite update_charge_lookup in Hi.
  destruct (prices !! i) as [p|] eqn:Hp; [|done]. cbn in Hi. injection Hi as <-.
  exists p. split; [by eapply list_elem_of_lookup_2|].
  rewrite mark_away_charge, mark_selected_charge.
  assert (datetime (mark_selected (slots_to_charge prices hours_needed hours_budget) p)
          = datetime p) as Hdt by by rewrite mark_selected_set.
  rewrite mark_away_set, Hdt. done.
Qed.

Lemma update_charge_marks prices hours_needed hours_budget hours_duration :
  marks_by_datetime prices →
  marks_by_datetime (update_charge prices hours_needed hours_budget hours_duration).
Proof.
  intros Hmarks p' q' (p & Hp & Hdp & ->)%update_charge_elem
    (q & Hq & Hdq & ->)%update_charge_elem Hdt.
  assert (datetime p = datetime q) as Hpq by congruence.
  by rewrite Hpq, (Hmarks p q Hp Hq Hpq).
Qed.

Lemma update_charge_decided_marks prices hours_needed hours_budget hours_duration i p :
  marks_by_datetime prices →
  prices !! i = Some p → charge p ≠ UNDECIDED →
  update_charge prices hours_needed hours_budget hours_duration !! i = Some p.
Proof.
  intros Hmarks Hi Hp. rewrite update_charge_lookup, Hi. cbn. f_equal.
  assert (mark_selected (slots_to_charge prices hours_needed hours_budget) p = p) as ->.
  { rewrite mark_selected_set, mark_selected_charge.
    case_bool_decide as Hdt; [|apply set_charge_same].
    apply list_elem_of_fmap in Hdt as (s & Hdt & Hs).
    apply slots_to_charge_elem in Hs as [Hs Hc]. destruct Hp.
    rewrite <-Hc. apply Hmarks; [by eapply list_elem_of_lookup_2|done..]. }
  by apply mark_away_decided.
Qed.

Lemma unique_marks_by_datetime prices :
  NoDup (datetime <$> prices) → marks_by_datetime prices.
Proof.
  intros Hnd p q Hp Hq Hdt. by rewrite (NoDup_fmap_eq datetime prices p q).
Qed.

Lemma undecided_marks_by_datetime prices :
  Forall (λ p, charge p = UNDECIDED) prices → marks_by_datetime prices.
Proof.
  rewrite Forall_forall. intros Hall p q Hp Hq _.
  by rewrite (Hall p Hp), (Hall q Hq).
Qed.

(** C2. Slots of one start time carrying one mark, as they do in a list of
    unique start times and in the list a cycle starts from, every sequence
    of calls of [update_charge] leaves each slot that is [RESERVED] or
    [BLOCKED] before it as it is; and the list it gives has again one mark
    for the slots of one start time, so that the same holds for the calls
    that follow. *)
Theorem update_charges_keep_decided prices calls :
  (NoDup (datetime <$> prices) ∨ Forall (λ p, charge p = UNDECIDED) prices
   ∨ marks_by_datetime prices) →
  (∀ i p, prices !! i = Some p → charge p ≠ UNDECIDED →
          update_charges prices calls !! i = Some p)
  ∧ marks_by_datetime (update_charges prices calls).
Proof.
  intros Hmarks.
  assert (marks_by_datetime prices) as Hm.
  { destruct Hmarks as [?|[?|?]];
      auto using unique_marks_by_datetime, undecided_marks_by_datetime. }
  clear Hmarks. unfold update_charges. revert prices Hm.
  induction calls as [|[[hn hb] hd] calls IH]; intros prices Hm; cbn; [done|].
  destruct (IH (update_charge prices hn hb hd)) as [Hkeep Hm'];
    [by apply update_charge_marks|].
  split; [|done]. intros i p Hi Hp. apply Hkeep; [|done].
  by apply update_charge_decided_marks.
Qed.

Lemma update_charges_keep_decided_witness :
  update_charges mixed_slots [(2, 7, 1); (1, 1, 3)] !! 0%nat
  = Some (mkSlot (hour 0) "NORMAL" (10 # 100) RESERVED)
  ∧ update_charges mixed_slots [(2, 7, 1); (1, 1, 3)] !! 2%nat
    = Some (mkSlot (hour 2) "NORMAL" (12 # 100) BLOCKED).
Proof.
  assert (NoDup (datetime <$> mixed_slots)) as Hnd by by_evaluation.
  pose proof (proj1 (update_charges_keep_decided mixed_slots [(2, 7, 1); (1, 1, 3)]
                       (or_introl Hnd))) as Hkeep.
  split; apply Hkeep; done.
Defined.

(** C8. The second pass of [update_charge] leaves every slot that is
    [RESERVED] after the first pass as it is, the slots chosen in this call
    included, and no position is both [RESERVED] and [BLOCKED]. *)
Theorem block_pass_keeps_reserved prices hours_needed hours_budget hours_duration :
  (∀ i p, reserve_pass prices hours_needed hours_budget !! i = Some p →
          charge p = RESERVED →
          update_charge prices hours_needed hours_budget hours_duration !! i = Some p)
  ∧ (∀ i p, prices !! i = Some p →
            p ∈ slots_to_charge prices hours_needed hours_budget →
            charge <$> update_charge prices hours_needed hours_budget hours_duration !! i
            = Some RESERVED)
  ∧ (∀ i, ¬ (i ∈ positions RESERVED
                   (update_charge prices hours_needed hours_budget hours_duration)
             ∧ i ∈ positions BLOCKED
                   (update_charge prices hours_needed hours_budget hours_duration))).
Proof.
  split; [|split].
  - intros i p Hi Hp. unfold update_charge, block_pass.
    rewrite list_lookup_fmap, Hi. cbn. f_equal.
    apply mark_away_decided. by rewrite Hp.
  - intros i p Hi Hin. rewrite update_charge_lookup, Hi. cbn. f_equal.
    rewrite mark_away_charge, mark_selected_charge.
    rewrite (bool_decide_eq_true_2 (_ ∈ _)) by by apply list_elem_of_fmap_2.
    rewrite bool_decide_eq_false_2; [done|]. tauto.
  - intros i [(p & Hp & Hr)%positions_spec (q & Hq & Hb)%positions_spec].
    congruence.
Qed.

Lemma block_pass_keeps_reserved_witness :
  update_charge mixed_slots 2 1 3 !! 1%nat
  = Some (mkSlot (hour 1) "CHEAP" (5 # 100) RESERVED)
  ∧ charge <$> update_charge mixed_slots 2 7 1 !! 4%nat = Some RESERVED.
Proof.
  split.
  - exact (proj1 (block_pass_keeps_reserved mixed_slots 2 1 3) 1%nat _ eq_refl eq_refl).
  - refine (proj1 (proj2 (block_pass_keeps_reserved mixed_slots 2 7 1))
              4%nat _ eq_refl _).
    apply (list_elem_of_lookup_2 _ 1%nat). vm_compute. reflexivity.
Defined.

(** C9. [update_charge] returns the slots of its argument, as many and in
    the same order, each with its [datetime], [level] and [price]; only
    the [charge] of a slot can differ. *)
Theorem update_charge_frame prices hours_needed hours_budget hours_duration :
  length (update_charge prices hours_needed hours_budget hours_duration) = length prices
  ∧ Forall2 (λ p q, datetime q = datetime p ∧ level q = level p ∧ price q = price p
                    ∧ q = set_charge (charge q) p)
      prices (update_charge prices hours_needed hours_budget hours_duration).
Proof.
  split.
  - unfold update_charge, block_pass, reserve_pass. by rewrite !length_map.
  - apply Forall2_same_length_lookup. split.
    + unfold update_charge, block_pass, reserve_pass. by rewrite !length_map.
    + intros i p q Hp Hq. rewrite update_charge_lookup, Hp in Hq.
      injection Hq as <-.
      rewrite mark_away_set, (mark_selected_set _ p). done.
Qed.

(** C6 as stated fails: with hours 4 to 23 at 0.20, hour 3 is not marked
    for charging. *)
Lemma day_scenario_not_1_3 :
  ¬ reserved_1_3_blocked_4_8 (update_charge (day_prices flat_rest) 2 3 5).
Proof. intros (_ & H & _). vm_compute in H. discriminate H. Qed.

(** C6, amended. For 24 hourly undecided slots whose first four prices are
    0.10, 0.05, 0.30 and 0.08, the call with [hours_needed = 2],
    [hours_budget = 3] and [hours_duration = 5] marks hours 0 and 1 for
    charging, hours 4 to 8 as blocked, and leaves hours 2 and 3 and the
    hours from 9 on undecided. *)
Theorem day_scenario rest :
  length rest = 20%nat →
  charges (update_charge (day_prices rest) 2 3 5) = reserved_0_1_blocked_4_8.
Proof.
  intros Hlen.
  do 20 (destruct rest as [|[? ?] rest]; [discriminate Hlen|]).
  destruct rest; [|discriminate Hlen].
  vm_compute. reflexivity.
Qed.

Lemma day_scenario_witness :
  length flat_rest = 20%nat
  ∧ charges (update_charge (day_prices flat_rest) 2 3 5) = reserved_0_1_blocked_4_8.
Proof. split; [reflexivity|]. apply (day_scenario flat_rest). reflexivity. Defined.

(** ** The trip charge planner *)

Lemma mark_full_lookup prices i p :
  prices !! i = Some p →
  mark_full prices !! i
  = Some (if bool_decide (i < first_blocked prices)%nat then block_undecided p else p).
Proof.
  revert i. induction prices as [|q prices IH]; intros i Hi; [done|].
  cbn [mark_full first_blocked]. case_bool_decide as Hq.
  - by rewrite bool_decide_eq_false_2 by lia.
  - destruct i as [|i]; cbn in Hi.
    + injection Hi as ->. by rewrite (bool_decide_eq_true_2 (0 < _)%nat) by lia.
    + rewrite (bool_decide_ext (S i < S (first_blocked prices))%nat
                 (i < first_blocked prices)%nat) by lia.
      exact (IH _ Hi).
Qed.

Lemma first_blocked_spec prices :
  (∀ j q, (j < first_blocked prices)%nat → prices !! j = Some q → charge q ≠ BLOCKED)
  ∧ ((first_blocked prices < length prices)%nat →
     ∃ q, prices !! first_blocked prices = Some q ∧ charge q = BLOCKED).
Proof.
  induction prices as [|p prices [IH1 IH2]]; cbn [first_blocked length].
  - split; intros; lia.
  - case_bool_decide as Hp; (split; [intros j q Hj Hq|intros Hlt]).
    + lia.
    + by exists p.
    + destruct j as [|j]; cbn in Hq; [by injection Hq as <-|].
      apply (IH1 j); [lia|done].
    + apply IH2. lia.
Qed.

(** C7. When an event leaves [charge_left] at zero, the sweep of
    [plan_event] turns every undecided slot before the first blocked slot
    into a blocked one, and every slot from the first blocked slot on is as
    [update_charge] left it. [first_blocked] is the position of the first
    blocked slot of the list the sweep starts from. *)
Theorem full_battery_sweep cfg now prices charge_left event :
  (charge_left_after cfg charge_left event == 0)%Q →
  let marked :=
    update_charge prices (event_hours_needed cfg charge_left event)
      (event_hours_budget now event) (event_hours_duration event) in
  let swept := (plan_event cfg now (prices, charge_left) event).1 in
  (∀ i p, marked !! i = Some p → (i < first_blocked marked)%nat →
          swept !! i = Some (block_undecided p))
  ∧ (∀ i p, marked !! i = Some p → (first_blocked marked ≤ i)%nat →
            swept !! i = Some p)
  ∧ (∀ j q, (j < first_blocked marked)%nat → marked !! j = Some q →
            charge q ≠ BLOCKED)
  ∧ ((first_blocked marked < length marked)%nat →
     ∃ q, marked !! first_blocked marked = Some q ∧ charge q = BLOCKED).
Proof.
  intros Hzero marked swept.
  assert (swept = mark_full marked) as ->.
  { unfold swept, plan_event. cbn [fst].
    apply Qeq_bool_iff in Hzero. by rewrite Hzero. }
  split; [|split; [|apply first_blocked_spec]].
  - intros i p Hi Hlt. rewrite (mark_full_lookup _ _ _ Hi).
    by rewrite bool_decide_eq_true_2.
  - intros i p Hi Hge. rewrite (mark_full_lookup _ _ _ Hi).
    by rewrite bool_decide_eq_false_2 by lia.
Qed.

Lemma full_battery_sweep_witness :
  (charge_left_after default_config 10 trip == 0)%Q
  ∧ (plan_event default_config 600 (twelve_hours, 10%Q) trip).1 !! 6%nat
    = Some (mkSlot (hour 6) "NORMAL" (25 # 100) BLOCKED)
  ∧ (plan_event default_config 600 (twelve_hours, 10%Q) trip).1 !! 11%nat
    = Some (mkSlot (hour 11) "NORMAL" (25 # 100) UNDECIDED).
Proof.
  assert (charge_left_after default_config 10 trip == 0)%Q as Hzero
    by (vm_compute; reflexivity).
  split; [exact Hzero|].
  pose proof (full_battery_sweep default_config 600 twelve_hours 10%Q trip Hzero)
    as (Hbefore & Hfrom & _).
  split.
  - apply (Hbefore 6%nat (mkSlot (hour 6) "NORMAL" (25 # 100) UNDECIDED)).
    + vm_compute. reflexivity.
    + vm_compute. lia.
  - apply (Hfrom 11%nat).
    + vm_compute. reflexivity.
    + vm_compute. lia.
Defined.

Lemma charge_needed_no_events cfg :
  Qceiling (Qmax (Qmin (kwh_needed cfg [] / inject_Z (BATTERY_CAPACITY cfg) * 100) 100)
                 (inject_Z (CHARGE_MINIMUM cfg)))
  = Z.max 0 (CHARGE_MINIMUM cfg).
Proof.
  assert (kwh_needed cfg [] / inject_Z (BATTERY_CAPACITY cfg) * 100 == 0)%Q as Hq.
  { unfold kwh_needed. cbn. unfold Qdiv. by rewrite !Qmult_0_l. }
  assert (Qmin (kwh_needed cfg [] / inject_Z (BATTERY_CAPACITY cfg) * 100) 100 == 0)%Q
    as Hmin by (rewrite Q.min_l; [done|by rewrite Hq]).
  destruct (Z.le_gt_cases 0 (CHARGE_MINIMUM cfg)) as [Hle|Hgt].
  - rewrite Q.max_r by (rewrite Hmin, <-(Zle_Qle 0); done).
    rewrite Qceiling_Z. lia.
  - rewrite Q.max_l by (rewrite Hmin, <-(Zle_Qle _ 0); lia).
    rewrite Hmin. change 0%Q with (inject_Z 0). rewrite Qceiling_Z. lia.
Qed.

(** C4, amended. With zero events the planning step leaves the slot list
    as it is. It leaves [charge_needed] as it is when there is no access to
    the calendar; when the calendar is read and holds no event (with a list
    of prices and a battery capacity other than zero) it sets
    [charge_needed] to [max(0, CHARGE_MINIMUM)], whatever it was. *)
Theorem plan_no_events cfg now battery_level charge_needed prices :
  (google cfg = false →
   plan cfg now battery_level charge_needed prices [] = Ok (charge_needed, prices))
  ∧ (google cfg = true → BATTERY_CAPACITY cfg ≠ 0 →
     ∀ slots, prices = PricesList slots →
       plan cfg now battery_level charge_needed prices []
       = Ok (Z.max 0 (CHARGE_MINIMUM cfg), PricesList slots)).
Proof.
  unfold plan. split.
  - by intros ->.
  - intros -> Hcap slots ->.
    rewrite bool_decide_eq_false_2 by done. cbn [fold_left].
    by rewrite charge_needed_no_events.
Qed.

Lemma plan_no_events_witness :
  google default_config = true ∧ BATTERY_CAPACITY default_config ≠ 0
  ∧ plan default_config 600 40 60 (PricesList twelve_hours) []
    = Ok (32, PricesList twelve_hours).
Proof.
  split; [reflexivity|]. split; [discriminate|].
  exact (proj2 (plan_no_events default_config 600 40 60 (PricesList twelve_hours))
           eq_refl ltac:(discriminate) twelve_hours eq_refl).
Defined.

(** C4 as stated fails: the calendar being read and empty, a
    [charge_needed] of 60 comes back as 32. *)
Lemma plan_no_events_resets :
  ¬ (∀ cfg now battery_level charge_needed prices,
       plan cfg now battery_level charge_needed prices [] = Ok (charge_needed, prices)).
Proof.
  intros H. specialize (H default_config 600 40 60 (PricesList twelve_hours)).
  vm_compute in H. discriminate H.
Qed.

(** ** The charging policy *)

Lemma charge_slot_true now prices :
  charge_slot now prices = true
  ↔ ∃ p, p ∈ prices ∧ datetime p ≤ now < datetime p + 3600 ∧ charge p = RESERVED.
Proof.
  unfold charge_slot. rewrite bool_decide_eq_true, Exists_exists.
  split; intros (p & ? & ?); exists p; tauto.
Qed.

(** ** One iteration of the main loop *)

(** C5, as the code has it. When the price source gives its sentinel (no
    connection to the database) in an iteration that reaches the charging
    logic, the iteration raises [TypeError]: nothing is skipped, the loop
    ends; and with an empty price table it raises [IndexError]. *)
Theorem price_failure_raises cfg st inp :
  at_home (cardata inp) = true →
  charge_port_engaged (cardata inp) = true →
  user_override cfg (battery_limit (cardata inp)) (charge_needed st) = false →
  (get_electricity_prices (price_source inp) = Ok PricesSentinel →
   cycle cfg st inp = Raise TypeError)
  ∧ (price_source inp = DbRecords [] → cycle cfg st inp = Raise IndexError).
Proof.
  intros Hhome Hport Hlimit. unfold cycle.
  rewrite Hhome, Hport. cbn [negb charge_needed]. rewrite Hlimit.
  unfold charging_logic. split.
  - intros ->. cbn [mbind PyResult_bind]. unfold plan.
    by destruct (google cfg).
  - by intros ->.
Qed.

Lemma price_failure_raises_witness :
  get_electricity_prices (price_source no_prices_cycle) = Ok PricesSentinel
  ∧ cycle default_config (initial_state default_config) no_prices_cycle
    = Raise TypeError.
Proof.
  split; [reflexivity|].
  exact (proj1 (price_failure_raises default_config (initial_state default_config)
                  no_prices_cycle eq_refl eq_refl eq_refl) eq_refl).
Defined.

(** A limit equal to [CHARGE_MINIMUM] is taken for a choice of the user
    whenever the minimum is none of the other limits of the script. *)
Lemma minimum_limit_is_override cfg st inp :
  at_home (cardata inp) = true →
  charge_port_engaged (cardata inp) = true →
  car_away st = false →
  battery_limit (cardata inp) = CHARGE_MINIMUM cfg →
  CHARGE_MINIMUM cfg ≠ CHARGE_DEFAULT cfg →
  CHARGE_MINIMUM cfg ≠ CHARGE_CHEAP cfg →
  CHARGE_MINIMUM cfg ≠ CHARGE_VERY_CHEAP cfg →
  CHARGE_MINIMUM cfg ≠ charge_needed st →
  cycle cfg st inp
  = Ok (mkCycleResult UserOverride [] (mkLoopState false (charge_needed st) (my_limit st))).
Proof.
  intros Hhome Hport Haway Hlimit Hd Hc Hv Hn. unfold cycle.
  rewrite Hhome, Hport, Haway, Hlimit. cbn [negb charge_needed].
  unfold user_override. by rewrite bool_decide_eq_true_2.
Qed.

(** C10. There is an execution of two iterations, from the start of the
    script, in which the first one charges by the minimum floor branch and
    sets the limit of the car to [CHARGE_MINIMUM], while [charge_needed] is
    another value and the minimum is none of the default, cheap and very
    cheap limits; the second one, with the battery still below the minimum,
    takes the limit the script has set itself for a choice of the user and
    sends no command. *)
Theorem minimum_limit_seen_as_override :
  ∃ cfg inp1 r1 inp2 r2,
    (CHARGE_MINIMUM cfg ≠ CHARGE_DEFAULT cfg
     ∧ CHARGE_MINIMUM cfg ≠ CHARGE_CHEAP cfg
     ∧ CHARGE_MINIMUM cfg ≠ CHARGE_VERY_CHEAP cfg)
    ∧ cycle cfg (initial_state cfg) inp1 = Ok r1
    ∧ verdict r1 = Policy MinimumFloor
    ∧ SetChargeLimit (CHARGE_MINIMUM cfg) ∈ commands r1
    ∧ charge_needed (next_state r1) ≠ CHARGE_MINIMUM cfg
    ∧ battery_limit (cardata inp2)
      = limit_after (commands r1) (battery_limit (cardata inp1))
    ∧ battery_limit (cardata inp2) = CHARGE_MINIMUM cfg
    ∧ at_home (cardata inp2) = true
    ∧ charge_port_engaged (cardata inp2) = true
    ∧ battery_level (cardata inp2) < CHARGE_MINIMUM cfg
    ∧ cycle cfg (next_state r1) inp2 = Ok r2
    ∧ verdict r2 = UserOverride
    ∧ commands r2 = [].
Proof.
  exists default_config, first_cycle,
    (mkCycleResult (Policy MinimumFloor)
       [InverterIdle; SetChargeLimit 32; StartCharging]
       (mkLoopState false 60 (Some 32))),
    (second_cycle 32),
    (mkCycleResult UserOverride [] (mkLoopState false 60 (Some 32))).
  split; [by repeat split|].
  split; [vm_compute; reflexivity|].
  split; [reflexivity|].
  split; [apply (list_elem_of_lookup_2 _ 1%nat); reflexivity|].
  split; [discriminate|].
  split; [reflexivity|].
  split; [reflexivity|].
  split; [reflexivity|].
  split; [reflexivity|].
  split; [reflexivity|].
  split; [vm_compute; reflexivity|].
  split; reflexivity.
Qed.

(** * Further properties of the script *)

(** ** Order of the slots chosen by [update_charge] *)

Section sorting.
Context {A : Type} (le : A → A → bool).
Hypothesis le_total : ∀ x y, le x y = true ∨ le y x = true.
Hypothesis le_trans : ∀ x y z, le x y = true → le y z = true → le x z = true.

Lemma insert_by_sorted x l :
  StronglySorted (λ a b, le a b = true) l →
  StronglySorted (λ a b, le a b = true) (insert_by le x l).
Proof.
  induction 1 as [|y l Hl IH Hy]; cbn.
  - repeat constructor.
  - destruct (le x y) eqn:Hxy.
    + constructor; [by constructor|]. constructor; [done|].
      eapply Forall_impl; [exact Hy|]. intros z Hz. by eapply le_trans.
    + constructor; [done|]. rewrite insert_by_perm. constructor; [|done].
      destruct (le_total x y); congruence.
Qed.

Lemma sorted_sorted l : StronglySorted (λ a b, le a b = true) (sorted le l).
Proof.
  induction l as [|x l IH]; cbn; [constructor|]. by apply insert_by_sorted.
Qed.

(** The first [k] elements of the sorted list come before the others. *)
Lemma sorted_take_first k l x y :
  x ∈ take k (sorted le l) → y ∈ l → y ∉ take k (sorted le l) → le x y = true.
Proof.
  intros Hx Hy Hny.
  pose proof (sorted_sorted l) as Hs. rewrite <-(take_drop k) in Hs.
  eapply (StronglySorted_app_1_elem_of _ _ _ _ _ Hs); [done|].
  assert (y ∈ take k (sorted le l) ++ drop k (sorted le l)) as Hin
    by (rewrite take_drop; eapply elem_of_Permutation_proper; [apply sorted_perm|done]).
  apply elem_of_app in Hin. tauto.
Qed.
End sorting.

Lemma sorted_id {A} (le : A → A → bool) l :
  StronglySorted (λ a b, le a b = true) l → sorted le l = l.
Proof.
  induction 1 as [|x l Hl IH Hx]; [done|].
  change (sorted le (x :: l)) with (insert_by le x (sorted le l)). rewrite IH.
  destruct Hx as [|y l' Hxy _]; cbn; [done|]. by rewrite Hxy.
Qed.

Lemma by_datetime_total x y : by_datetime x y = true ∨ by_datetime y x = true.
Proof. unfold by_datetime. lia. Qed.

Lemma by_datetime_trans x y z :
  by_datetime x y = true → by_datetime y z = true → by_datetime x z = true.
Proof. unfold by_datetime. lia. Qed.

Lemma by_price_datetime_spec x y :
  by_price_datetime x y = true
  ↔ (price x < price y)%Q ∨ ((price x == price y)%Q ∧ datetime x ≤ datetime y).
Proof.
  unfold by_price_datetime.
  destruct (price x ?= price y)%Q eqn:Hc.
  - apply Qeq_alt in Hc. rewrite Z.leb_le. split; [tauto|].
    intros [Hlt|[_ ?]]; [|done]. rewrite Hc in Hlt. by apply Qlt_irrefl in Hlt.
  - apply Qlt_alt in Hc. tauto.
  - apply Qgt_alt in Hc. split; [done|].
    intros [Hlt|[Heq _]].
    + destruct (Qlt_irrefl (price x)). by eapply Qlt_trans.
    + rewrite Heq in Hc. by apply Qlt_irrefl in Hc.
Qed.

Lemma by_price_datetime_total x y :
  by_price_datetime x y = true ∨ by_price_datetime y x = true.
Proof.
  rewrite !by_price_datetime_spec.
  destruct (Q_dec (price x) (price y)) as [[Hlt|Hgt]|Heq]; [tauto..|].
  destruct (Z.le_ge_cases (datetime x) (datetime y)); [tauto|].
  right. right. split; [by symmetry|done].
Qed.

Lemma by_price_datetime_trans x y z :
  by_price_datetime x y = true → by_price_datetime y z = true →
  by_price_datetime x z = true.
Proof.
  rewrite !by_price_datetime_spec.
  intros [Hxy|[Hxy Hdxy]] [Hyz|[Hyz Hdyz]].
  - left. by eapply Qlt_trans.
  - left. by rewrite <-Hyz.
  - left. by rewrite Hxy.
  - right. split; [by rewrite Hxy|lia].
Qed.

(** X1. Among the slots of the deadline window, the call charges the
    cheapest: a chosen slot costs no more than a slot of the window that
    is not chosen, and at equal price it is not the later one. *)
Theorem cheapest_first prices hours_needed hours_budget s t :
  0 ≤ hours_needed →
  s ∈ slots_to_charge prices hours_needed hours_budget →
  t ∈ deadline_window prices hours_budget →
  t ∉ slots_to_charge prices hours_needed hours_budget →
  (price s < price t)%Q ∨ ((price s == price t)%Q ∧ datetime s ≤ datetime t).
Proof.
  unfold slots_to_charge. fold (undecided prices).
  fold (deadline_window prices hours_budget).
  intros Hn. rewrite py_slice_to_take by done. intros Hs Ht Hnt.
  apply by_price_datetime_spec.
  eapply sorted_take_first;
    eauto using by_price_datetime_total, by_price_datetime_trans.
Qed.

Lemma cheapest_first_witness :
  (price (mkSlot (hour 1) "CHEAP" (5 # 100) UNDECIDED)
   < price (mkSlot (hour 3) "EXPENSIVE" (30 # 100) UNDECIDED))%Q
  ∨ ((price (mkSlot (hour 1) "CHEAP" (5 # 100) UNDECIDED)
      == price (mkSlot (hour 3) "EXPENSIVE" (30 # 100) UNDECIDED))%Q
     ∧ hour 1 ≤ hour 3).
Proof.
  apply (cheapest_first mixed_slots 1 7).
  - lia.
  - apply (list_elem_of_lookup_2 _ 0%nat). vm_compute. reflexivity.
  - apply (list_elem_of_lookup_2 _ 1%nat). vm_compute. reflexivity.
  - intros [i Hi]%list_elem_of_lookup.
    destruct i as [|[|i]]; vm_compute in Hi; discriminate Hi.
Defined.

(** X2. The slots chosen by a call lie in the deadline window, and the
    window holds the earliest undecided slots: a slot of the window starts
    no later than an undecided slot outside it. *)
Theorem deadline_window_earliest prices hours_needed hours_budget :
  (∀ s, s ∈ slots_to_charge prices hours_needed hours_budget →
        s ∈ deadline_window prices hours_budget)
  ∧ (∀ s t, s ∈ deadline_window prices hours_budget →
            t ∈ undecided prices → t ∉ deadline_window prices hours_budget →
            datetime s ≤ datetime t).
Proof.
  split.
  - intros s Hs. unfold slots_to_charge in Hs. fold (undecided prices) in Hs.
    fold (deadline_window prices hours_budget) in Hs.
    eapply elem_of_sublist in Hs; [|apply py_slice_sublist].
    by rewrite sorted_perm in Hs.
  - unfold deadline_window. rewrite py_slice_to_take by lia.
    intros s t Hs Ht Hnt. apply Z.leb_le.
    eapply (sorted_take_first by_datetime);
      eauto using by_datetime_total, by_datetime_trans.
Qed.

Lemma deadline_window_earliest_witness :
  hour 1 ≤ hour 4.
Proof.
  apply (proj2 (deadline_window_earliest mixed_slots 1 2)
           (mkSlot (hour 1) "CHEAP" (5 # 100) UNDECIDED)
           (mkSlot (hour 4) "CHEAP" (8 # 100) UNDECIDED)).
  - apply (list_elem_of_lookup_2 _ 0%nat). vm_compute. reflexivity.
  - apply (list_elem_of_lookup_2 _ 2%nat). vm_compute. reflexivity.
  - intros [i Hi]%list_elem_of_lookup.
    destruct i as [|[|[|i]]]; vm_compute in Hi; discriminate Hi.
Defined.

(** ** The away window of [update_charge] *)

Lemma reserve_pass_datetimes prices hours_needed hours_budget :
  datetime <$> reserve_pass prices hours_needed hours_budget = datetime <$> prices.
Proof.
  unfold reserve_pass. apply list_eq; intros i.
  rewrite !list_lookup_fmap. destruct (prices !! i) as [p|]; [cbn|done].
  by rewrite mark_selected_set.
Qed.

Lemma ascending_by_datetime (l : list PriceSlot) :
  StronglySorted Z.lt (datetime <$> l) →
  StronglySorted (λ a b, by_datetime a b = true) l.
Proof.
  induction l as [|p l IH]; [constructor|].
  rewrite fmap_cons, !StronglySorted_cons, Forall_fmap. intros [Hp Hl].
  split; [|by apply IH]. eapply Forall_impl; [exact Hp|].
  intros q Hq. unfold by_datetime. cbn in Hq. lia.
Qed.

Lemma ascending_NoDup (l : list Z) : StronglySorted Z.lt l → NoDup l.
Proof.
  induction 1 as [|x l Hl IH Hx]; constructor; [|done].
  intros Hin. rewrite Forall_forall in Hx. specialize (Hx _ Hin). lia.
Qed.

Lemma elem_of_take_drop_NoDup {A} (l : list A) a n i x :
  NoDup l → l !! i = Some x →
  x ∈ take n (drop a l) ↔ (a ≤ i < a + n)%nat.
Proof.
  intros Hnd Hi. rewrite elem_of_take. split.
  - intros (j & Hj & Hlt). rewrite lookup_drop in Hj.
    rewrite (NoDup_lookup _ _ _ _ Hnd Hi Hj). lia.
  - intros Hr. exists (i - a)%nat. rewrite lookup_drop.
    replace (a + (i - a))%nat with i by lia. split; [done|lia].
Qed.

Lemma py_slice_nonneg {A} (l : list A) a b :
  0 ≤ a ≤ len l → 0 ≤ b ≤ len l →
  py_slice l a b = take (Z.to_nat (b - a)) (drop (Z.to_nat a) l).
Proof.
  intros Ha Hb. unfold py_slice, py_bound. fold (len l).
  destruct (Z.ltb_spec a 0); [lia|]. destruct (Z.ltb_spec b 0); [lia|].
  by rewrite !Z.min_r by lia.
Qed.

(** X3. On a list in ascending order of start time, with
    [hours_duration >= 0], the second pass blocks the slots at the
    positions [max(1, hours_budget) + 1] up to
    [max(1, hours_budget) + hours_duration] that the first pass did not
    reserve, and leaves every slot at another position as the first pass
    left it. *)
Theorem away_window prices hours_needed hours_budget hours_duration i p :
  StronglySorted Z.lt (datetime <$> prices) → 0 ≤ hours_duration →
  reserve_pass prices hours_needed hours_budget !! i = Some p →
  update_charge prices hours_needed hours_budget hours_duration !! i
  = Some (if bool_decide
               (Z.max 1 hours_budget + 1 ≤ Z.of_nat i
                  < Z.max 1 hours_budget + hours_duration + 1
                ∧ charge p ≠ RESERVED)
          then set_charge BLOCKED p else p).
Proof.
  intros Hasc Hd Hi. unfold update_charge, block_pass.
  rewrite list_lookup_fmap, Hi. cbn [fmap option_fmap option_map]. f_equal.
  set (l1 := reserve_pass prices hours_needed hours_budget) in *.
  assert (datetime <$> l1 = datetime <$> prices) as Hdt
    by apply reserve_pass_datetimes.
  rewrite <-Hdt in Hasc.
  rewrite mark_away_set, mark_away_charge.
  unfold slots_away. rewrite (sorted_id _ l1) by by apply ascending_by_datetime.
  pose proof (lookup_lt_Some _ _ _ Hi) as Hlen.
  rewrite py_slice_nonneg by (unfold len; lia).
  rewrite fmap_take, fmap_drop.
  erewrite (bool_decide_ext (_ ∧ _)
              (Z.max 1 hours_budget + 1 ≤ Z.of_nat i
                 < Z.max 1 hours_budget + hours_duration + 1
               ∧ charge p ≠ RESERVED)).
  - case_bool_decide; [done|apply set_charge_same].
  - rewrite (elem_of_take_drop_NoDup _ _ _ i); [|by apply ascending_NoDup|by rewrite list_lookup_fmap, Hi].
    unfold len. split; (intros [? ?]; split; [lia|done]).
Qed.

Lemma away_window_witness :
  update_charge mixed_slots 1 1 2 !! 3%nat
  = Some (mkSlot (hour 3) "EXPENSIVE" (30 # 100) BLOCKED).
Proof.
  refine (away_window mixed_slots 1 1 2 3%nat
            (mkSlot (hour 3) "EXPENSIVE" (30 # 100) UNDECIDED) _ _ _).
  - by_evaluation.
  - lia.
  - vm_compute. reflexivity.
Defined.

(** X4. [hours_needed] is not clamped: a negative value is a slice bound
    counted from the end of the window, so that the call charges all but
    the [-hours_needed] most expensive slots of the deadline window. *)
Theorem negative_hours_needed prices hours_needed hours_budget hours_duration :
  hours_needed < 0 →
  len (slots_to_charge prices hours_needed hours_budget)
  = Z.max 0 (len (deadline_window prices hours_budget) + hours_needed)
  ∧ (NoDup (datetime <$> prices) →
     newly_reserved prices
       (update_charge prices hours_needed hours_budget hours_duration)
     = Z.max 0 (len (deadline_window prices hours_budget) + hours_needed)).
Proof.
  intros Hn.
  assert (len (slots_to_charge prices hours_needed hours_budget)
          = Z.max 0 (len (deadline_window prices hours_budget) + hours_needed))
    as Hlen.
  { unfold slots_to_charge. fold (undecided prices).
    fold (deadline_window prices hours_budget).
    set (w := sorted by_price_datetime (deadline_window prices hours_budget)).
    assert (len w = len (deadline_window prices hours_budget)) as Hw
      by (unfold len, w; by rewrite sorted_length).
    unfold py_slice_to, py_slice. fold (len w).
    assert (py_bound (len w) 0 = 0) as -> by (unfold py_bound, len; cbn; lia).
    assert (py_bound (len w) (Z.min (len w) hours_needed)
            = Z.max 0 (len w + hours_needed)) as ->.
    { unfold py_bound. rewrite Z.min_r by (unfold len; lia).
      by destruct (Z.ltb_spec hours_needed 0); [|lia]. }
    change (Z.to_nat 0) with 0%nat. rewrite drop_0, Z.sub_0_r.
    unfold len in *. rewrite length_take. lia. }
  split; [done|]. intros Hnd. by rewrite newly_reserved_chosen.
Qed.

Lemma negative_hours_needed_witness :
  newly_reserved mixed_slots (update_charge mixed_slots (-1) 7 0) = 2.
Proof.
  refine (proj2 (negative_hours_needed mixed_slots (-1) 7 0 _) _).
  - lia.
  - by_evaluation.
Defined.

(** X5. [update_charge] never takes a decision back: a slot that is
    undecided after the call is the slot that was there before, undecided;
    and on a list without undecided slot the call changes nothing. *)
Theorem update_charge_never_undecides prices hours_needed hours_budget hours_duration :
  (∀ i q, update_charge prices hours_needed hours_budget hours_duration !! i = Some q →
          charge q = UNDECIDED → prices !! i = Some q)
  ∧ (undecided prices = [] →
     update_charge prices hours_needed hours_budget hours_duration = prices).
Proof.
  split.
  - intros i q Hq Hc. rewrite update_charge_lookup in Hq.
    destruct (prices !! i) as [p|]; [|done]. f_equal.
    assert (q = mark_away
                  (slots_away (reserve_pass prices hours_needed hours_budget)
                     hours_budget hours_duration)
                  (mark_selected (slots_to_charge prices hours_needed hours_budget) p))
      as Heq by (cbn in Hq; congruence).
    clear Hq.
    assert (q = set_charge (charge q) p) as Hset.
    { rewrite Heq at 1. etrans; [apply mark_away_set|]. rewrite <-Heq.
      unfold set_charge. f_equal; by rewrite mark_selected_set. }
    assert (charge p = UNDECIDED) as Hp.
    { rewrite Heq, mark_away_charge, mark_selected_charge in Hc.
      destruct (bool_decide (_ ∧ _)); [done|].
      by destruct (bool_decide (_ ∈ _)). }
    by rewrite Hset, Hc, <-Hp, set_charge_same.
  - intros Hnone. apply list_eq; intros i. rewrite update_charge_lookup.
    destruct (prices !! i) as [p|] eqn:Hi; [cbn|done]. f_equal.
    assert (charge p ≠ UNDECIDED) as Hp.
    { intros Hc. assert (p ∈ undecided prices) as Hin.
      { apply list_elem_of_filter. split; [done|].
        by eapply list_elem_of_lookup_2. }
      rewrite Hnone in Hin. by apply elem_of_nil in Hin. }
    assert (slots_to_charge prices hours_needed hours_budget = []) as ->.
    { apply elem_of_nil_inv. intros s Hs.
      apply slots_to_charge_elem in Hs as [Hs Hc].
      assert (s ∈ undecided prices) as Hin by by apply list_elem_of_filter.
      rewrite Hnone in Hin. by apply elem_of_nil in Hin. }
    cbn. by apply mark_away_decided.
Qed.

Lemma update_charge_never_undecides_witness :
  update_charge [mkSlot (hour 0) "NORMAL" (10 # 100) BLOCKED] 1 1 1
  = [mkSlot (hour 0) "NORMAL" (10 # 100) BLOCKED].
Proof.
  exact (proj2 (update_charge_never_undecides
                  [mkSlot (hour 0) "NORMAL" (10 # 100) BLOCKED] 1 1 1) eq_refl).
Defined.

(** ** [mark_price_time] *)

Lemma mark_price_time_lookup prices dt c i :
  mark_price_time prices dt c !! i
  = (λ p, if bool_decide (datetime p = dt) then set_charge c p else p) <$> prices !! i.
Proof.
  unfold mark_price_time. rewrite list_lookup_fmap.
  destruct (prices !! i) as [p|]; [cbn|done]. by destruct c.
Qed.

(** X6. [mark_price_time] sets the charge of every slot of the given start
    time and of no other slot, and keeps start time, level and price of
    all; without a slot of that start time the list is unchanged. *)
Theorem mark_price_time_marks prices dt c :
  Forall2 (λ p q, datetime q = datetime p ∧ level q = level p ∧ price q = price p
                  ∧ (datetime p = dt → charge q = c)
                  ∧ (datetime p ≠ dt → q = p))
    prices (mark_price_time prices dt c)
  ∧ (dt ∉ datetime <$> prices → mark_price_time prices dt c = prices).
Proof.
  split.
  - apply Forall2_same_length_lookup. split.
    + unfold mark_price_time. by rewrite length_map.
    + intros i p q Hp Hq. rewrite mark_price_time_lookup, Hp in Hq.
      injection Hq as <-. by case_bool_decide.
  - intros Hno. apply list_eq; intros i. rewrite mark_price_time_lookup.
    destruct (prices !! i) as [p|] eqn:Hp; [cbn|done].
    rewrite bool_decide_eq_false_2; [done|]. intros <-. apply Hno.
    apply list_elem_of_fmap_2. by eapply list_elem_of_lookup_2.
Qed.

Lemma mark_price_time_marks_witness :
  mark_price_time mixed_slots (hour 9) RESERVED = mixed_slots.
Proof.
  apply (proj2 (mark_price_time_marks mixed_slots (hour 9) RESERVED)).
  intros [i Hi]%list_elem_of_lookup.
  do 5 (destruct i as [|i]; [discriminate Hi|]). discriminate Hi.
Defined.

(** X7. For one start time the last mark wins, whatever was marked
    before; marks for two different start times can be made in any
    order. *)
Theorem mark_price_time_overwrites prices dt dt' c c' :
  mark_price_time (mark_price_time prices dt c) dt c' = mark_price_time prices dt c'
  ∧ (dt ≠ dt' →
     mark_price_time (mark_price_time prices dt c) dt' c'
     = mark_price_time (mark_price_time prices dt' c') dt c).
Proof.
  split; [|intros Hne]; apply list_eq; intros i;
    rewrite !mark_price_time_lookup; destruct (prices !! i) as [p|]; cbn;
    try done; f_equal; repeat case_bool_decide; cbn in *; try done; congruence.
Qed.

Lemma mark_price_time_overwrites_witness :
  mark_price_time (mark_price_time mixed_slots (hour 1) RESERVED) (hour 2) UNDECIDED
  = mark_price_time (mark_price_time mixed_slots (hour 2) UNDECIDED) (hour 1) RESERVED.
Proof.
  apply (proj2 (mark_price_time_overwrites mixed_slots (hour 1) (hour 2)
                  RESERVED UNDECIDED)).
  discriminate.
Defined.

(** ** [get_electricity_prices] *)

Lemma get_electricity_prices_undecided db prices :
  get_electricity_prices db = Ok (PricesList prices) →
  Forall (λ p, charge p = UNDECIDED) prices.
Proof.
  destruct db as [|records]; [done|]. unfold get_electricity_prices.
  destruct (map _ records) as [|p l] eqn:Hmap; [done|].
  intros [= <-]. rewrite <-Hmap. apply Forall_forall.
  by intros q (r & -> & _)%list_elem_of_fmap.
Qed.

(** X8. When [get_electricity_prices] returns a list, the list is not
    empty, holds one slot for each row of the table, in the order of the
    rows and with their values, and every slot is undecided. *)
Theorem get_electricity_prices_fresh db prices :
  get_electricity_prices db = Ok (PricesList prices) →
  prices ≠ []
  ∧ Forall (λ p, charge p = UNDECIDED) prices
  ∧ db = DbRecords ((λ p, (datetime p, level p, price p)) <$> prices).
Proof.
  intros Hget. split; [|split].
  - destruct db as [|records]; [done|]. unfold get_electricity_prices in Hget.
    destruct (map _ records); [done|]. by injection Hget as <-.
  - by eapply get_electricity_prices_undecided.
  - destruct db as [|records]; [done|]. unfold get_electricity_prices in Hget.
    destruct (map _ records) as [|p l] eqn:Hmap; [done|].
    injection Hget as <-. rewrite <-Hmap. f_equal.
    apply list_eq; intros i. rewrite !list_lookup_fmap.
    by destruct (records !! i) as [[[? ?] ?]|].
Qed.

Lemma get_electricity_prices_fresh_witness :
  Forall (λ p, charge p = UNDECIDED) twelve_hours.
Proof.
  refine (proj1 (proj2 (get_electricity_prices_fresh (DbRecords price_records)
                          twelve_hours _))).
  vm_compute. reflexivity.
Defined.

(** ** The events of the calendar *)

Lemma total_distance_app events event :
  total_distance (events ++ [event]) = total_distance events + ev_distance event.
Proof.
  unfold total_distance.
  induction events as [|e events IH]; cbn [app foldr]; lia.
Qed.

Lemma add_event_inv cfg acc item acc' :
  add_event cfg acc item = Ok acc' →
  acc' = acc
  ∨ ∃ e, acc' = (acc.1 + ev_distance e, acc.2 ++ [e])
         ∧ 100 < ev_time e ∧ (item_route item).2 ≤ ev_time e
         ∧ route_of e = route_to item.
Proof.
  unfold add_event. destruct (item_summary item); [|done].
  destruct (item_location item) as [location|]; [|by left; congruence].
  destruct (negb _ && _); [|by left; congruence].
  destruct (item_route item) as [distance time] eqn:Hroute.
  case_bool_decide as Htime; [|by left; congruence].
  case_bool_decide; [done|]. intros [= <-]. right.
  eexists (mkEvent _ _ _ _). split; [reflexivity|].
  unfold route_of, route_to. rewrite Hroute. cbn.
  split; [|split; [|done]]; case_bool_decide; lia.
Qed.

Lemma for_each_add_event cfg items acc acc' :
  for_each (add_event cfg) items acc = Ok acc' →
  ∃ new, acc'.2 = acc.2 ++ new
         ∧ acc'.1 = acc.1 + total_distance new
         ∧ Forall (λ e, 100 < ev_time e) new
         ∧ route_of <$> new `sublist_of` route_to <$> items.
Proof.
  revert acc. induction items as [|item items IH]; intros acc; cbn.
  - intros [= <-]. exists []. rewrite app_nil_r.
    split; [done|]. split; [unfold total_distance; cbn; lia|]. split; constructor.
  - destruct (add_event cfg acc item) as [acc1|] eqn:Hadd; [cbn|done].
    intros (new & Hev & Htot & Hall & Hsub)%IH.
    apply add_event_inv in Hadd as [->|(e & -> & Ht & _ & Hroute)].
    + exists new. repeat split; try done. by apply sublist_cons.
    + exists (e :: new). cbn [fst snd] in *. rewrite Hev, Htot, <-app_assoc.
      split; [done|]. split; [unfold total_distance; cbn [foldr]; lia|].
      split; [by constructor|].
      rewrite !fmap_cons, <-Hroute. by apply sublist_skip.
Qed.

(** X9. What [get_calendar_events] returns: the total distance is the sum
    of the distances of the events returned; each of them is more than 100
    seconds away; and they are events of the calendar, in its order. *)
Theorem get_calendar_events_valid cfg calendar total events :
  get_calendar_events cfg calendar = Ok (total, events) →
  total = total_distance events
  ∧ Forall (λ e, 100 < ev_time e) events
  ∧ route_of <$> events `sublist_of` route_to <$> default [] calendar.
Proof.
  destruct calendar as [items|]; cbn.
  - intros (new & Hev & Htot & Hall & Hsub)%for_each_add_event. cbn in *.
    subst. split; [lia|done].
  - intros [= <- <-]. split; [done|]. split; constructor.
Qed.

Lemma get_calendar_events_valid_witness :
  500000 = total_distance [mkEvent (hour 14) (hour 16) 500000 21600].
Proof.
  refine (proj1 (get_calendar_events_valid default_config (Some calendar_day) _ _ _)).
  vm_compute. reflexivity.
Defined.

(** ** What the planner passes to [update_charge] *)

Lemma Qceiling_nonneg x : (0 <= x)%Q → 0 ≤ Qceiling x.
Proof. intros Hx. exact (Qceiling_resp_le 0 x Hx). Qed.

Lemma Qceiling_pos x : (0 < x)%Q → 1 ≤ Qceiling x.
Proof.
  intros Hx. pose proof (Qle_ceiling x) as Hc.
  assert (inject_Z 0 < inject_Z (Qceiling x))%Q as Hlt
    by (change (inject_Z 0) with 0%Q; lra).
  rewrite <-Zlt_Qlt in Hlt. lia.
Qed.

Lemma CHARGE_POWER_pos : (0 < CHARGE_POWER)%Q.
Proof. reflexivity. Qed.

(** X10. The planner never asks for a negative number of hours, and asks
    for none when the pool [charge_left] covers the event; an event that
    is more than 100 seconds away and does not end before it starts keeps
    the car away for at least one hour. *)
Theorem plan_event_arguments cfg now charge_left event :
  0 ≤ event_hours_needed cfg charge_left event
  ∧ ((inject_Z (event_charge cfg event) <= charge_left)%Q →
     event_hours_needed cfg charge_left event = 0
     ∧ ∀ prices,
         reserve_pass prices (event_hours_needed cfg charge_left event)
           (event_hours_budget now event) = prices)
  ∧ (100 < ev_time event → ev_start event ≤ ev_end event →
     1 ≤ event_hours_duration event).
Proof.
  split; [|split].
  - unfold event_hours_needed. apply Qceiling_nonneg.
    apply Qle_shift_div_l; [apply CHARGE_POWER_pos|].
    pose proof (Q.le_max_r (inject_Z (event_charge cfg event) - charge_left) 0).
    lra.
  - intros Hcover.
    assert (event_hours_needed cfg charge_left event = 0) as Hzero.
    { unfold event_hours_needed.
      assert (Qmax (inject_Z (event_charge cfg event) - charge_left) 0
                / CHARGE_POWER == 0)%Q as ->; [|done].
      rewrite Q.max_r by lra. unfold Qdiv. apply Qmult_0_l. }
    split; [done|]. intros prices. rewrite Hzero.
    unfold reserve_pass, slots_to_charge.
    rewrite (py_slice_to_take _ 0) by done. cbn [Z.to_nat take].
    apply list_eq; intros i. rewrite list_lookup_fmap.
    by destruct (prices !! i).
  - intros Htime Hend. unfold event_hours_duration, event_home, event_depart.
    apply Qceiling_pos. apply Qlt_shift_div_l; [reflexivity|].
    assert (0 < ev_end event + ev_time event - (ev_start event - ev_time event))
      as Hpos by lia.
    rewrite Zlt_Qlt in Hpos. change (inject_Z 0) with 0%Q in Hpos. lra.
Qed.

Lemma plan_event_arguments_witness :
  (inject_Z (event_charge default_config trip) <= 50)%Q
  ∧ event_hours_needed default_config 50 trip = 0
  ∧ 1 ≤ event_hours_duration trip.
Proof.
  assert (inject_Z (event_charge default_config trip) <= 50)%Q as Hcover
    by (vm_compute; discriminate).
  pose proof (plan_event_arguments default_config 600 50 trip) as (_ & Hnone & Hd).
  split; [exact Hcover|]. split; [exact (proj1 (Hnone Hcover))|].
  apply Hd; vm_compute; [reflexivity|discriminate].
Defined.

(** X11. After an event the pool is never negative, and it is zero, which
    starts the sweep, exactly when the event needs at least what was left
    in it. *)
Theorem pool_after_event cfg charge_left event :
  (0 <= charge_left_after cfg charge_left event)%Q
  ∧ ((charge_left_after cfg charge_left event == 0)%Q
     ↔ (charge_left <= inject_Z (event_charge cfg event))%Q)
  ∧ ∀ now prices,
      (plan_event cfg now (prices, charge_left) event).1
      = if Qle_bool charge_left (inject_Z (event_charge cfg event))
        then mark_full
               (update_charge prices (event_hours_needed cfg charge_left event)
                  (event_hours_budget now event) (event_hours_duration event))
        else update_charge prices (event_hours_needed cfg charge_left event)
               (event_hours_budget now event) (event_hours_duration event).
Proof.
  assert ((charge_left_after cfg charge_left event == 0)%Q
          ↔ (charge_left <= inject_Z (event_charge cfg event))%Q) as Hiff.
  { unfold charge_left_after.
    destruct (Q.max_spec (charge_left - inject_Z (event_charge cfg event)) 0)
      as [[? ->]|[? ->]]; split; intros; lra. }
  split; [|split; [done|]].
  - unfold charge_left_after. apply Q.le_max_r.
  - intros now prices. unfold plan_event. cbn [fst].
    destruct (Qle_bool _ _) eqn:Hle.
    + apply Qle_bool_iff, Hiff, Qeq_bool_iff in Hle. by rewrite Hle.
    + destruct (Qeq_bool _ 0) eqn:Hq; [|done].
      apply Qeq_bool_iff, Hiff, Qle_bool_iff in Hq. congruence.
Qed.

(** ** The planning step as a whole *)

Lemma mark_full_fmap_lookup prices i :
  mark_full prices !! i
  = (λ p, if bool_decide (i < first_blocked prices)%nat then block_undecided p else p)
    <$> prices !! i.
Proof.
  destruct (prices !! i) as [p|] eqn:Hi; [by apply mark_full_lookup|].
  cbn. apply lookup_ge_None. apply lookup_ge_None in Hi.
  revert Hi. clear. revert i. induction prices as [|q prices IH]; intros i; [done|].
  cbn [mark_full]. case_bool_decide; [done|]. cbn [length].
  destruct i as [|i]; [lia|]. specialize (IH i). lia.
Qed.

Lemma block_undecided_set p : block_undecided p = set_charge (charge (block_undecided p)) p.
Proof. unfold block_undecided. case_bool_decide; [done|by rewrite set_charge_same]. Qed.

Lemma plan_event_slot cfg now prices charge_left event i :
  ∃ f : PriceSlot → PriceSlot,
    (plan_event cfg now (prices, charge_left) event).1 !! i = f <$> prices !! i
    ∧ (∀ p, f p = set_charge (charge (f p)) p)
    ∧ (∀ p, charge p = RESERVED → f p = p)
    ∧ (NoDup (datetime <$> prices) →
       ∀ p, prices !! i = Some p → charge p = BLOCKED → f p = p).
Proof.
  set (g := λ p, mark_away
            (slots_away (reserve_pass prices (event_hours_needed cfg charge_left event)
                           (event_hours_budget now event))
               (event_hours_budget now event) (event_hours_duration event))
            (mark_selected (slots_to_charge prices
                              (event_hours_needed cfg charge_left event)
                              (event_hours_budget now event)) p)).
  assert (∀ p, g p = set_charge (charge (g p)) p) as Hgset.
  { intros p. unfold g. etrans; [apply mark_away_set|].
    unfold set_charge. f_equal; by rewrite mark_selected_set. }
  assert (∀ p, charge p = RESERVED → g p = p) as Hgres.
  { intros p Hp. unfold g. rewrite mark_selected_reserved by done.
    apply mark_away_decided. by rewrite Hp. }
  assert (NoDup (datetime <$> prices) →
          ∀ p, prices !! i = Some p → charge p = BLOCKED → g p = p) as Hgblk.
  { intros Hnd p Hi Hp.
    pose proof (update_charge_decided prices
                  (event_hours_needed cfg charge_left event)
                  (event_hours_budget now event) (event_hours_duration event)
                  i p Hnd Hi ltac:(by rewrite Hp)) as Hkeep.
    rewrite update_charge_lookup, Hi in Hkeep. by injection Hkeep. }
  unfold plan_event. cbn [fst].
  destruct (Qeq_bool _ 0).
  - exists (λ p, (if bool_decide (i < first_blocked
                       (update_charge prices (event_hours_needed cfg charge_left event)
                          (event_hours_budget now event) (event_hours_duration event)))%nat
                  then block_undecided (g p) else g p)).
    split; [|split; [|split]].
    + rewrite mark_full_fmap_lookup, update_charge_lookup.
      by destruct (prices !! i).
    + intros p. case_bool_decide; [|done].
      rewrite block_undecided_set at 1. rewrite (Hgset p) at 2. done.
    + intros p Hp. rewrite (Hgres p Hp). unfold block_undecided.
      rewrite (bool_decide_eq_false_2 (charge p = _)) by by rewrite Hp.
      by case_bool_decide.
    + intros Hnd p Hi Hp. rewrite (Hgblk Hnd p Hi Hp). unfold block_undecided.
      rewrite (bool_decide_eq_false_2 (charge p = _)) by by rewrite Hp.
      by case_bool_decide.
  - exists g. split; [apply update_charge_lookup|done].
Qed.

Lemma plan_event_datetimes cfg now prices charge_left event :
  datetime <$> (plan_event cfg now (prices, charge_left) event).1 = datetime <$> prices.
Proof.
  apply list_eq; intros i. rewrite !list_lookup_fmap.
  destruct (plan_event_slot cfg now prices charge_left event i) as (f & -> & Hset & _).
  destruct (prices !! i) as [p|]; [cbn|done]. by rewrite Hset.
Qed.

Lemma plan_events_slot cfg now events prices charge_left i :
  ∃ f : PriceSlot → PriceSlot,
    (fold_left (plan_event cfg now) events (prices, charge_left)).1 !! i
    = f <$> prices !! i
    ∧ (∀ p, f p = set_charge (charge (f p)) p)
    ∧ (∀ p, charge p = RESERVED → f p = p)
    ∧ (NoDup (datetime <$> prices) →
       ∀ p, prices !! i = Some p → charge p = BLOCKED → f p = p).
Proof.
  revert prices charge_left.
  induction events as [|event events IH]; intros prices charge_left.
  - exists id. cbn. split; [by destruct (prices !! i)|].
    split; [intros p; by rewrite set_charge_same|done].
  - cbn [fold_left].
    destruct (plan_event_slot cfg now prices charge_left event i)
      as (f1 & Hf1 & Hset1 & Hres1 & Hblk1).
    pose proof (plan_event_datetimes cfg now prices charge_left event) as Hdt.
    destruct (plan_event cfg now (prices, charge_left) event) as [prices1 left1].
    cbn [fst] in *.
    destruct (IH prices1 left1) as (f2 & Hf2 & Hset2 & Hres2 & Hblk2).
    exists (f2 ∘ f1). split; [|split; [|split]].
    + rewrite Hf2, Hf1. by destruct (prices !! i).
    + intros p. unfold compose. etrans; [apply Hset2|].
      unfold set_charge. f_equal; by rewrite (Hset1 p).
    + intros p Hp. unfold compose. by rewrite (Hres1 p Hp), (Hres2 p Hp).
    + intros Hnd p Hi Hp. unfold compose. rewrite (Hblk1 Hnd p Hi Hp).
      apply Hblk2; [by rewrite Hdt| |done].
      rewrite Hf1, Hi. cbn. by rewrite (Hblk1 Hnd p Hi Hp).
Qed.

Lemma plan_inv cfg now battery_level charge_needed prices events charge_needed' prices' :
  plan cfg now battery_level charge_needed (PricesList prices) events
  = Ok (charge_needed', PricesList prices') →
  (google cfg = false ∧ charge_needed' = charge_needed ∧ prices' = prices)
  ∨ (google cfg = true ∧ BATTERY_CAPACITY cfg ≠ 0
     ∧ charge_needed'
       = Qceiling (Qmax (Qmin (kwh_needed cfg events
                               / inject_Z (BATTERY_CAPACITY cfg) * 100) 100)
                        (inject_Z (CHARGE_MINIMUM cfg)))
     ∧ ∃ charge_left,
         prices' = (fold_left (plan_event cfg now) events (prices, charge_left)).1).
Proof.
  unfold plan. destruct (google cfg).
  - case_bool_decide as Hcap; [done|].
    destruct (fold_left _ _ _) as [l left] eqn:Hfold. intros [= <- <-].
    right. repeat split; try done. eexists. by rewrite Hfold.
  - intros [= <- <-]. by left.
Qed.

(** X12. The planning step keeps the slots of the price list: as many, in
    the same order, each with its start time, level and price; only the
    charge of a slot can differ, whatever the events. *)
Theorem plan_frame cfg now battery_level charge_needed prices events
    charge_needed' prices' :
  plan cfg now battery_level charge_needed (PricesList prices) events
  = Ok (charge_needed', PricesList prices') →
  Forall2 (λ p q, datetime q = datetime p ∧ level q = level p ∧ price q = price p)
    prices prices'.
Proof.
  intros [(_ & _ & ->)|(_ & _ & _ & left & ->)]%plan_inv;
    apply Forall2_lookup; intros i.
  - destruct (prices !! i); by constructor.
  - destruct (plan_events_slot cfg now events prices left i) as (f & -> & Hset & _).
    destruct (prices !! i) as [p|]; constructor. by rewrite Hset.
Qed.

Lemma plan_frame_witness :
  Forall2 (λ p q, datetime q = datetime p ∧ level q = level p ∧ price q = price p)
    twelve_hours
    (fold_left (plan_event default_config 600) [trip] (twelve_hours, 10%Q)).1.
Proof.
  refine (plan_frame default_config 600 20 32 twelve_hours [trip] 60 _ _).
  vm_compute. reflexivity.
Defined.



(** With access to the calendar, the planning step returns a
    [charge_needed] between [CHARGE_MINIMUM] and the larger of 100 and
    [CHARGE_MINIMUM], whatever the events and the value before. *)
Lemma plan_charge_needed_bounds cfg now battery_level charge_needed prices events
    charge_needed' prices' :
  google cfg = true →
  plan cfg now battery_level charge_needed prices events = Ok (charge_needed', prices') →
  CHARGE_MINIMUM cfg ≤ charge_needed' ≤ Z.max 100 (CHARGE_MINIMUM cfg).
Proof.
  unfold plan. intros ->. destruct prices as [|prices]; [done|].
  case_bool_decide; [done|].
  destruct (fold_left _ _ _) as [l left]. intros [= <- _].
  set (x := (kwh_needed cfg events / inject_Z (BATTERY_CAPACITY cfg) * 100)%Q).
  split.
  - rewrite <-(Qceiling_Z (CHARGE_MINIMUM cfg)) at 1.
    apply Qceiling_resp_le, Q.le_max_r.
  - rewrite <-(Qceiling_Z (Z.max 100 (CHARGE_MINIMUM cfg))).
    apply Qceiling_resp_le, Q.max_lub.
    + apply Qle_trans with 100%Q; [apply Q.le_min_r|].
      change 100%Q with (inject_Z 100). rewrite <-Zle_Qle. lia.
    + rewrite <-Zle_Qle. lia.
Qed.

Lemma plan_charge_needed_bounds_witness :
  CHARGE_MINIMUM default_config ≤ 60 ≤ Z.max 100 (CHARGE_MINIMUM default_config).
Proof.
  refine (plan_charge_needed_bounds default_config 600 20 32
            (PricesList twelve_hours) [trip] 60 _ eq_refl _).
  vm_compute. reflexivity.
Defined.

(** ** The commands of the policy *)

Lemma charge_to_elem cfg online cardata limit c :
  c ∈ charge_to cfg online cardata limit
  ↔ (c = WakeUp ∧ online = false)
    ∨ (c = InverterIdle ∧ inverter_host cfg = true)
    ∨ (c = SetChargeLimit limit ∧ battery_limit cardata ≠ limit)
    ∨ (c = StartCharging ∧ charge_rate cardata = 0).
Proof.
  unfold charge_to. rewrite !elem_of_app.
  destruct online, (inverter_host cfg); repeat case_bool_decide;
    rewrite ?elem_of_cons, ?elem_of_nil; naive_solver.
Qed.

Lemma stop_charge_elem cfg cardata c :
  c ∈ stop_charge cfg cardata
  ↔ (c = StopCharging ∧ 0 < charge_rate cardata)
    ∨ (c = InverterActive ∧ inverter_host cfg = true).
Proof.
  unfold stop_charge. rewrite !elem_of_app.
  destruct (inverter_host cfg); case_bool_decide;
    rewrite ?elem_of_cons, ?elem_of_nil; naive_solver.
Qed.

Lemma policy_inv cfg online cardata charge_needed now prices b limit cmds :
  policy cfg online cardata charge_needed now prices = Ok (b, limit, cmds) →
  (b = NoWindow ∧ limit = None ∧ cmds = stop_charge cfg cardata)
  ∨ (∃ l, b ≠ NoWindow ∧ limit = Some l ∧ cmds = charge_to cfg online cardata l
          ∧ battery_level cardata < l
          ∧ (b = EventDriven ∧ l = charge_needed
             ∨ b = MinimumFloor ∧ l = CHARGE_MINIMUM cfg
             ∨ b = Cheap ∧ l = CHARGE_CHEAP cfg
             ∨ b = VeryCheap ∧ l = CHARGE_VERY_CHEAP cfg)).
Proof.
  unfold policy. intros Hp.
  destruct (bool_decide (battery_level cardata < charge_needed)
            && charge_slot now prices) eqn:H1.
  { apply andb_true_iff in H1 as [H1%bool_decide_eq_true _].
    injection Hp as <- <- <-. right. exists charge_needed. naive_solver. }
  destruct (bool_decide (battery_level cardata < CHARGE_MINIMUM cfg)) eqn:H2.
  { apply bool_decide_eq_true in H2.
    injection Hp as <- <- <-. right. exists (CHARGE_MINIMUM cfg). naive_solver. }
  destruct prices as [|p0 rest]; [done|].
  destruct (bool_decide (level p0 = "CHEAP"%string)
            && bool_decide (battery_level cardata < CHARGE_CHEAP cfg)) eqn:H3.
  { apply andb_true_iff in H3 as [_ H3%bool_decide_eq_true].
    injection Hp as <- <- <-. right. exists (CHARGE_CHEAP cfg). naive_solver. }
  destruct (bool_decide (level p0 = "VERY_CHEAP"%string)
            && bool_decide (battery_level cardata < CHARGE_VERY_CHEAP cfg)) eqn:H4.
  { apply andb_true_iff in H4 as [_ H4%bool_decide_eq_true].
    injection Hp as <- <- <-. right. exists (CHARGE_VERY_CHEAP cfg). naive_solver. }
  injection Hp as <- <- <-. by left.
Qed.

(** X15. What the policy sends: it starts a charge only when the car is
    not charging and stops one only when it is, never both; it sets a
    limit only above the battery level and only when the car shows another
    limit; and it never sets the home battery both idle and active. *)
Theorem policy_commands cfg online cardata charge_needed now prices b limit cmds :
  policy cfg online cardata charge_needed now prices = Ok (b, limit, cmds) →
  (StartCharging ∈ cmds → charge_rate cardata = 0 ∧ b ≠ NoWindow)
  ∧ (StopCharging ∈ cmds → 0 < charge_rate cardata ∧ b = NoWindow)
  ∧ (∀ l, SetChargeLimit l ∈ cmds →
          limit = Some l ∧ battery_level cardata < l ∧ battery_limit cardata ≠ l)
  ∧ (WakeUp ∈ cmds → online = false ∧ b ≠ NoWindow)
  ∧ ¬ (InverterIdle ∈ cmds ∧ InverterActive ∈ cmds).
Proof.
  intros [(-> & -> & ->)|(l & Hb & -> & -> & Hlt & _)]%policy_inv.
  - setoid_rewrite stop_charge_elem. naive_solver.
  - setoid_rewrite charge_to_elem. naive_solver.
Qed.

Lemma policy_commands_witness :
  charge_rate (cardata first_cycle) = 0 ∧ EventDriven ≠ NoWindow.
Proof.
  refine (proj1 (policy_commands default_config true (cardata first_cycle) 60 600
                   reserved_now EventDriven (Some 60)
                   [InverterIdle; SetChargeLimit 60; StartCharging] eq_refl) _).
  apply (list_elem_of_lookup_2 _ 2%nat). reflexivity.
Defined.

(** ** Iterations of the main loop *)

Lemma limit_after_app cmds cmds' limit :
  limit_after (cmds ++ cmds') limit = limit_after cmds' (limit_after cmds limit).
Proof. unfold limit_after. apply fold_left_app. Qed.

Lemma limit_after_charge_to cfg online cardata l limit :
  limit_after (charge_to cfg online cardata l) limit
  = if bool_decide (battery_limit cardata ≠ l) then l else limit.
Proof.
  unfold charge_to.
  by destruct online, (inverter_host cfg), (bool_decide (battery_limit cardata ≠ l)),
    (bool_decide (charge_rate cardata = 0)).
Qed.

Lemma user_override_false cfg limit charge_needed :
  user_override cfg limit charge_needed = false
  ↔ limit = CHARGE_DEFAULT cfg ∨ limit = CHARGE_CHEAP cfg
    ∨ limit = CHARGE_VERY_CHEAP cfg ∨ limit = charge_needed.
Proof. unfold user_override. rewrite bool_decide_eq_false. lia. Qed.

Lemma policy_event_slot cfg online cardata charge_needed now prices limit cmds :
  policy cfg online cardata charge_needed now prices = Ok (EventDriven, limit, cmds) →
  charge_slot now prices = true.
Proof.
  unfold policy. destruct (charge_slot now prices); [done|].
  rewrite andb_false_r. case_bool_decide; [done|].
  destruct prices as [|p0 rest]; [done|].
  by repeat destruct (_ && _).
Qed.

Lemma charging_logic_inv cfg st inp b cmds st' :
  charging_logic cfg st inp = Ok (b, cmds, st') →
  ∃ prices charge_needed' prices' limit,
    get_electricity_prices (price_source inp) = Ok (PricesList prices)
    ∧ plan cfg (now inp) (battery_level (cardata inp)) (charge_needed st)
        (PricesList prices) (events inp)
      = Ok (charge_needed', PricesList prices')
    ∧ policy cfg (car_online inp) (cardata inp) charge_needed' (now inp) prices'
      = Ok (b, limit, cmds)
    ∧ charge_needed st' = charge_needed'
    ∧ car_away st' = false.
Proof.
  unfold charging_logic.
  destruct (get_electricity_prices (price_source inp)) as [pv|]; [cbn|done].
  destruct (plan cfg (now inp) (battery_level (cardata inp)) (charge_needed st)
              pv (events inp)) as [[cn pv']|] eqn:Hplan; [cbn|done].
  destruct pv' as [|prices']; [done|].
  destruct pv as [|prices].
  { unfold plan in Hplan. by destruct (google cfg). }
  destruct (policy cfg (car_online inp) (cardata inp) cn (now inp) prices')
    as [[[b' limit] cmds']|] eqn:Hpol; [cbn|done].
  intros [= <- <- <-]. by exists prices, cn, prices', limit.
Qed.

Lemma cycle_inv cfg st inp r :
  cycle cfg st inp = Ok r →
  (verdict r ∈ [NotAtHome; CableNotConnected; UserOverride]
   ∧ charge_needed (next_state r) = charge_needed st)
  ∨ ∃ b cmds,
      verdict r = Policy b
      ∧ at_home (cardata inp) = true
      ∧ user_override cfg (battery_limit (cardata inp)) (charge_needed st) = false
      ∧ commands r
        = (if car_away st then [SetChargeLimit (CHARGE_DEFAULT cfg)] else []) ++ cmds
      ∧ charging_logic cfg (mkLoopState false (charge_needed st) (my_limit st)) inp
        = Ok (b, cmds, next_state r).
Proof.
  unfold cycle. destruct (at_home (cardata inp)); cbn [negb].
  2: { intros [= <-]. left. cbn. split; [|done]. apply elem_of_cons; by left. }
  destruct (charge_port_engaged (cardata inp)); cbn [negb].
  2: { intros [= <-]. left. cbn. split; [|done].
       apply elem_of_cons; right. apply elem_of_cons; by left. }
  cbn [charge_needed].
  destruct (user_override cfg _ _) eqn:Hov.
  { intros [= <-]. left. cbn. split; [|done].
    do 2 (apply elem_of_cons; right). apply elem_of_cons; by left. }
  destruct (charging_logic _ _ inp) as [[[b cmds] st']|] eqn:Hlogic; [cbn|done].
  intros [= <-]. right. exists b, cmds. by cbn.
Qed.

(** X14. When the car is not at home, or at home with the cable not
    connected, the iteration ends without raising, whatever the price
    source and the calendar give; the only command it can send is the
    reset of the limit to [CHARGE_DEFAULT], sent exactly when the car has
    left or has come back since the iteration before, and [charge_needed]
    is carried on as it is. *)
Theorem away_or_unplugged cfg st inp :
  at_home (cardata inp) = false ∨ charge_port_engaged (cardata inp) = false →
  ∃ r, cycle cfg st inp = Ok r
       ∧ commands r
         = (if bool_decide (car_away st = at_home (cardata inp))
            then [SetChargeLimit (CHARGE_DEFAULT cfg)] else [])
       ∧ car_away (next_state r) = negb (at_home (cardata inp))
       ∧ charge_needed (next_state r) = charge_needed st.
Proof.
  unfold cycle. intros [Hhome|Hport].
  - rewrite Hhome. cbn [negb]. eexists. split; [done|]. cbn.
    by destruct (car_away st).
  - destruct (at_home (cardata inp)); cbn [negb].
    + rewrite Hport. cbn [negb]. eexists. split; [done|]. cbn.
      by destruct (car_away st).
    + eexists. split; [done|]. cbn. by destruct (car_away st).
Qed.

Lemma away_or_unplugged_witness :
  ∃ r, cycle default_config (mkLoopState true 60 None)
         (mkCycleInput (mkCarData 20 32 false 0 true) true DbConnectError [] 600)
       = Ok r
       ∧ commands r = [SetChargeLimit 50]
       ∧ car_away (next_state r) = false
       ∧ charge_needed (next_state r) = 60.
Proof.
  exact (away_or_unplugged default_config (mkLoopState true 60 None)
           (mkCycleInput (mkCarData 20 32 false 0 true) true DbConnectError [] 600)
           (or_intror eq_refl)).
Defined.

(** X16. After an iteration that charges by the event driven, the cheap or
    the very cheap branch, the limit the car is left with is one the test
    on the user override of the next iteration accepts. *)
Theorem policy_limit_recognised cfg st inp r b :
  cycle cfg st inp = Ok r →
  verdict r = Policy b → b ∈ [EventDriven; Cheap; VeryCheap] →
  user_override cfg
    (limit_after (commands r) (battery_limit (cardata inp)))
    (charge_needed (next_state r)) = false.
Proof.
  intros [[Hv _]|(b' & cmds & Hv & _ & _ & Hcmds & Hlogic)]%cycle_inv Hb Hin.
  { rewrite Hb in Hv. rewrite !elem_of_cons, elem_of_nil in Hv. naive_solver. }
  rewrite Hb in Hv. injection Hv as <-.
  apply charging_logic_inv
    in Hlogic as (prices & cn & prices' & limit & _ & _ & Hpol & Hcn & _).
  rewrite Hcmds, limit_after_app, Hcn.
  apply policy_inv in Hpol as [(-> & _)|(l & _ & _ & -> & _ & Hl)].
  { rewrite !elem_of_cons, elem_of_nil in Hin. naive_solver. }
  rewrite limit_after_charge_to. apply user_override_false.
  assert (l = cn ∨ l = CHARGE_CHEAP cfg ∨ l = CHARGE_VERY_CHEAP cfg) as Hl'.
  { rewrite !elem_of_cons, elem_of_nil in Hin. naive_solver. }
  case_bool_decide as Hne; [naive_solver|].
  destruct (car_away st); cbn; [by left|]. naive_solver.
Qed.

Lemma policy_limit_recognised_witness :
  user_override default_config 49 32 = false.
Proof.
  refine (policy_limit_recognised default_config (initial_state default_config)
            (mkCycleInput (mkCarData 40 50 true 0 true) true
               (DbRecords [(hour 0, "CHEAP"%string, (5 # 100)%Q)]) [] 600)
            (mkCycleResult (Policy Cheap) [InverterIdle; SetChargeLimit 49; StartCharging]
               (mkLoopState false 32 (Some 49)))
            Cheap _ eq_refl _).
  - vm_compute. reflexivity.
  - apply (list_elem_of_lookup_2 _ 1%nat). reflexivity.
Defined.

Lemma plan_without_events cfg now battery_level charge_needed prices events
    charge_needed' prices' :
  google cfg = false ∨ events = [] →
  plan cfg now battery_level charge_needed (PricesList prices) events
  = Ok (charge_needed', PricesList prices') →
  prices' = prices.
Proof.
  intros Hno [(_ & _ & ->)|(Hg & _ & _ & pool & ->)]%plan_inv; [done|].
  destruct Hno as [Hno | ->]; [congruence|done].
Qed.

(** X17. Without access to the calendar, or with no event in it, the
    planning step leaves the list of [get_electricity_prices] as it is,
    so that no slot is marked for charging, the current hour is not one to
    charge in, and the iteration never takes the event driven branch. *)
Theorem no_events_no_event_charge cfg st inp :
  google cfg = false ∨ events inp = [] →
  (∀ prices charge_needed' prices',
     get_electricity_prices (price_source inp) = Ok (PricesList prices) →
     plan cfg (now inp) (battery_level (cardata inp)) (charge_needed st)
       (PricesList prices) (events inp)
     = Ok (charge_needed', PricesList prices') →
     prices' = prices
     ∧ Forall (λ p, charge p = UNDECIDED) prices'
     ∧ charge_slot (now inp) prices' = false)
  ∧ (∀ r, cycle cfg st inp = Ok r → verdict r ≠ Policy EventDriven).
Proof.
  intros Hno.
  assert (∀ prices charge_needed' prices',
            get_electricity_prices (price_source inp) = Ok (PricesList prices) →
            plan cfg (now inp) (battery_level (cardata inp)) (charge_needed st)
              (PricesList prices) (events inp)
            = Ok (charge_needed', PricesList prices') →
            prices' = prices
            ∧ Forall (λ p, charge p = UNDECIDED) prices'
            ∧ charge_slot (now inp) prices' = false) as Hplan.
  { intros prices cn prices' Hget Hplan.
    apply get_electricity_prices_undecided in Hget as Hfresh.
    apply (plan_without_events _ _ _ _ _ _ _ _ Hno) in Hplan as ->.
    split; [done|]. split; [done|].
    apply not_true_is_false. intros (p & Hp & _ & Hres)%charge_slot_true.
    rewrite Forall_forall in Hfresh. specialize (Hfresh p Hp). congruence. }
  split; [exact Hplan|].
  intros r [[Hv _]|(b & cmds & Hv & _ & _ & _ & Hlogic)]%cycle_inv Hb.
  { rewrite Hb in Hv. rewrite !elem_of_cons, elem_of_nil in Hv. naive_solver. }
  rewrite Hb in Hv. injection Hv as <-.
  apply charging_logic_inv
    in Hlogic as (prices & cn & prices' & limit & Hget & Hpl & Hpol & _).
  cbn [charge_needed] in Hpl.
  destruct (Hplan _ _ _ Hget Hpl) as (_ & _ & Hslot).
  apply policy_event_slot in Hpol. congruence.
Qed.

Lemma no_events_no_event_charge_witness :
  Forall (λ p, charge p = UNDECIDED)
    [mkSlot (hour 0) "CHEAP" (5 # 100) UNDECIDED]
  ∧ Policy Cheap ≠ Policy EventDriven.
Proof.
  pose proof (no_events_no_event_charge default_config (initial_state default_config)
                (mkCycleInput (mkCarData 40 50 true 0 true) true
                   (DbRecords [(hour 0, "CHEAP"%string, (5 # 100)%Q)]) [] 600)
                (or_intror eq_refl)) as [Hplan Hcycle].
  split.
  - refine (proj1 (proj2 (Hplan [mkSlot (hour 0) "CHEAP" (5 # 100) UNDECIDED] 32
                            [mkSlot (hour 0) "CHEAP" (5 # 100) UNDECIDED] eq_refl _))).
    vm_compute. reflexivity.
  - refine (Hcycle (mkCycleResult (Policy Cheap)
                      [InverterIdle; SetChargeLimit 49; StartCharging]
                      (mkLoopState false 32 (Some 49))) _).
    vm_compute. reflexivity.
Defined.

Lemma cycle_charge_needed cfg st inp r :
  CHARGE_MINIMUM cfg ≤ charge_needed st ≤ Z.max 100 (CHARGE_MINIMUM cfg) →
  cycle cfg st inp = Ok r →
  CHARGE_MINIMUM cfg ≤ charge_needed (next_state r) ≤ Z.max 100 (CHARGE_MINIMUM cfg).
Proof.
  intros Hst [[_ ->]|(b & cmds & _ & _ & _ & _ & Hlogic)]%cycle_inv; [done|].
  apply charging_logic_inv
    in Hlogic as (prices & cn & prices' & limit & _ & Hplan & _ & -> & _).
  cbn [charge_needed] in Hplan.
  destruct (google cfg) eqn:Hg.
  - by eapply plan_charge_needed_bounds.
  - unfold plan in Hplan. rewrite Hg in Hplan. by injection Hplan as <- _.
Qed.

(** X18. Through any number of iterations from the start of the script,
    [charge_needed] stays between [CHARGE_MINIMUM] and the larger of 100
    and [CHARGE_MINIMUM]. *)
Theorem charge_needed_invariant cfg inputs st :
  run cfg (initial_state cfg) inputs = Ok st →
  CHARGE_MINIMUM cfg ≤ charge_needed st ≤ Z.max 100 (CHARGE_MINIMUM cfg).
Proof.
  unfold run.
  assert (CHARGE_MINIMUM cfg ≤ charge_needed (initial_state cfg)
          ≤ Z.max 100 (CHARGE_MINIMUM cfg)) as Hinit by (cbn; lia).
  revert Hinit. generalize (initial_state cfg).
  induction inputs as [|inp inputs IH]; intros st0 Hst0; cbn.
  - by intros [= <-].
  - destruct (cycle cfg st0 inp) as [r|] eqn:Hcycle; [cbn|done].
    apply IH. by eapply cycle_charge_needed.
Qed.

Lemma charge_needed_invariant_witness :
  CHARGE_MINIMUM default_config ≤ 60 ≤ Z.max 100 (CHARGE_MINIMUM default_config).
Proof.
  refine (charge_needed_invariant default_config [first_cycle; second_cycle 32]
            (mkLoopState false 60 (Some 32)) _).
  vm_compute. reflexivity.
Defined.

(** ** The home battery *)

(** X19. On an inverter that stores what is written, [set_inverter_mode]
    with ['idle'] leaves remote control with command mode 0, with
    ['active'] it leaves the stored mode; so ['active'] after ['idle']
    brings back the mode stored at the start of the script, whatever the
    mode was before ['idle']. *)
Theorem inverter_mode_round_trip stored d :
  set_inverter_mode registers stored idle d = Returned (4, 0)
  ∧ set_inverter_mode registers stored active d = Returned stored
  ∧ (∀ d', set_inverter_mode registers stored idle d = Returned d' →
           set_inverter_mode registers stored active d' = Returned stored
           ∧ set_inverter_mode registers stored idle d' = Returned d').
Proof.
  assert (∀ d, set_inverter_mode registers stored idle d = Returned (4, 0)) as Hidle.
  { intros [mode cmd]. unfold set_inverter_mode. cbn.
    destruct (decide (mode = 4)) as [->|Hne].
    - by rewrite bool_decide_eq_false_2 by (intros H; by apply H).
    - by rewrite bool_decide_eq_true_2. }
  assert (∀ d, set_inverter_mode registers stored active d = Returned stored) as Hact.
  { intros [mode cmd]. by destruct stored. }
  split; [apply Hidle|]. split; [apply Hact|].
  intros d' Hd'. split; [apply Hact|]. rewrite Hidle in Hd'.
  injection Hd' as <-. apply Hidle.
Qed.

Lemma inverter_mode_round_trip_witness :
  set_inverter_mode registers (1, 0) active (4, 0) = Returned (1, 0)
  ∧ set_inverter_mode registers (1, 0) idle (4, 0) = Returned (4, 0).
Proof.
  exact (proj2 (proj2 (inverter_mode_round_trip (1, 0) (7, 2))) (4, 0) eq_refl).
Defined.

(** X20. The errors of [set_inverter_mode]: with ['active'] every failure
    of the transport is caught; with ['idle'] a failure of the first read
    is not; and the ['idle'] call raises [TypeError] when the inverter
    takes the writes and then reads back a command mode other than 0,
    because the message of the warning has one place for two values. *)
Theorem inverter_mode_errors {D} (inverter : Inverter D) stored d :
  (∃ d', set_inverter_mode inverter stored active d = Returned d')
  ∧ (inv_read inverter d storage_control_mode = None →
     set_inverter_mode inverter stored idle d = TransportError)
  ∧ (set_inverter_mode inverter stored idle d = FormatTypeError
     ↔ ∃ mode_read d1 d2 value,
         inv_read inverter d storage_control_mode = Some mode_read
         ∧ (if bool_decide (mode_read ≠ 4)
            then inv_write inverter d storage_control_mode 4 else Some d) = Some d1
         ∧ inv_write inverter d1 rc_cmd_mode 0 = Some d2
         ∧ inv_read inverter d2 rc_cmd_mode = Some value
         ∧ value ≠ 0).
Proof.
  split; [|split].
  - unfold set_inverter_mode.
    destruct (inv_write inverter d _ _) as [d1|]; [|by eexists].
    destruct (inv_write inverter d1 _ _); by eexists.
  - unfold set_inverter_mode. by intros ->.
  - unfold set_inverter_mode. split.
    + destruct (inv_read inverter d _) as [mode_read|]; [|done].
      destruct (if bool_decide (mode_read ≠ 4) then _ else _) as [d1|] eqn:H1; [|done].
      destruct (inv_write inverter d1 _ _) as [d2|] eqn:H2; [|done].
      destruct (inv_read inverter d2 _) as [value|] eqn:H3; [|done].
      destruct (bool_decide (value ≠ 0)) eqn:Hv; [|done].
      apply bool_decide_eq_true in Hv. intros _. by exists mode_read, d1, d2, value.
    + intros (mode_read & d1 & d2 & value & -> & -> & -> & -> & Hv).
      by rewrite bool_decide_eq_true_2.
Qed.

Lemma inverter_mode_errors_witness :
  set_inverter_mode deaf_registers (1, 0) idle (1, 3) = FormatTypeError.
Proof.
  apply (proj2 (proj2 (inverter_mode_errors deaf_registers (1, 0) (1, 3)))).
  exists 1, (4, 3), (4, 3), 3. repeat split; try reflexivity. discriminate.
Defined.

(** ** The polls after a command *)

Lemma poll_bound {A} (ok : A → bool) answer first attempts :
  ((poll ok answer first attempts).1 ≤ attempts)%nat.
Proof.
  revert first. induction attempts as [|attempts IH]; intros first; cbn; [lia|].
  destruct (answer first) as [a|]; [|cbn; lia].
  destruct (ok a); [cbn; lia|]. specialize (IH (S first)).
  destruct (poll ok answer (S first) attempts). cbn in *. lia.
Qed.

Lemma poll_first {A} (ok : A → bool) answer first attempts k :
  (k < attempts)%nat →
  (∀ j, (j < k)%nat → ∃ a, answer (first + j)%nat = Some a ∧ ok a = false) →
  (answer (first + k)%nat = None → poll ok answer first attempts = (k, PollRaised))
  ∧ (∀ a, answer (first + k)%nat = Some a → ok a = true →
          poll ok answer first attempts = (k, Broke)).
Proof.
  revert first k. induction attempts as [|attempts IH]; intros first k Hk Hbefore;
    [lia|].
  destruct k as [|k].
  - rewrite Nat.add_0_r. cbn. split.
    + by intros ->.
    + intros a -> Hok. by rewrite Hok.
  - destruct (Hbefore 0%nat ltac:(lia)) as (a0 & Ha0 & Hok0).
    rewrite Nat.add_0_r in Ha0. cbn. rewrite Ha0, Hok0.
    destruct (IH (S first) k ltac:(lia)) as [Hraise Hbreak].
    { intros j Hj. destruct (Hbefore (S j) ltac:(lia)) as (a & Ha & Hok).
      exists a. by rewrite Nat.add_succ_comm. }
    rewrite <-Nat.add_succ_comm. split.
    + intros Hnone. by rewrite (Hraise Hnone).
    + intros a Ha Hok. by rewrite (Hbreak a Ha Hok).
Qed.

Lemma poll_exhausted {A} (ok : A → bool) answer first attempts :
  (∀ j, (j < attempts)%nat → ∃ a, answer (first + j)%nat = Some a ∧ ok a = false) →
  poll ok answer first attempts = (attempts, Exhausted).
Proof.
  revert first. induction attempts as [|attempts IH]; intros first Hall; [done|].
  destruct (Hall 0%nat ltac:(lia)) as (a0 & Ha0 & Hok0).
  rewrite Nat.add_0_r in Ha0. cbn. rewrite Ha0, Hok0, IH; [done|].
  intros j Hj. destruct (Hall (S j) ltac:(lia)) as (a & Ha & Hok).
  exists a. by rewrite Nat.add_succ_comm.
Qed.

(** X21. The polls after a command are bounded. [wake_up] sleeps 5 seconds
    for each answer before the first one that says online, and 50 seconds
    when none of ten does. [set_start_charging] sleeps 10 seconds for each
    reading before the first one with a current above 0, at most 100
    seconds; a reading without data counts as not charging, and a reading
    that raises ends the function at once, after the sleeps made so
    far. *)
Theorem command_waits status current :
  (0 ≤ (wake_up_poll status).1 ≤ 50 ∧ 0 ≤ (start_charging_poll current).1 ≤ 100)
  ∧ (∀ k, (k < 10)%nat →
          (∀ j, (j < k)%nat →
                ∃ s, status j = Some s ∧ s ≠ Some "online"%string) →
          status k = Some (Some "online"%string) →
          wake_up_poll status = (5 * Z.of_nat k, Broke))
  ∧ ((∀ j, (j < 10)%nat → ∃ s, status j = Some s ∧ s ≠ Some "online"%string) →
     wake_up_poll status = (50, Exhausted))
  ∧ (∀ k, (k < 10)%nat →
          (∀ j, (j < k)%nat →
                ∃ r, current j = Some r ∧ ∀ c, r = Some c → c ≤ 0) →
          (∀ c, current k = Some (Some c) → 0 < c →
                start_charging_poll current = (10 * Z.of_nat k, Broke))
          ∧ (current k = None →
             start_charging_poll current = (10 * Z.of_nat k, PollRaised)))
  ∧ ((∀ j, (j < 10)%nat → ∃ r, current j = Some r ∧ ∀ c, r = Some c → c ≤ 0) →
     start_charging_poll current = (100, Exhausted)).
Proof.
  unfold wake_up_poll, start_charging_poll.
  assert (∀ r : option Z, (∀ c, r = Some c → c ≤ 0) →
            match r with Some c => bool_decide (0 < c) | None => false end = false)
    as Hnot.
  { intros [c|] Hr; [|done]. apply bool_decide_eq_false_2.
    specialize (Hr c eq_refl). lia. }
  split; [|split; [|split; [|split]]].
  - pose proof (poll_bound (λ s, bool_decide (s = Some "online"%string)) status 0 10).
    pose proof (poll_bound
                  (λ c, match c with Some c => bool_decide (0 < c) | None => false end)
                  current 0 10).
    cbn [fst]. lia.
  - intros k Hk Hbefore Hon.
    destruct (poll_first (λ s, bool_decide (s = Some "online"%string))
                status 0 10 k Hk) as [_ Hbreak].
    { intros j Hj. destruct (Hbefore j Hj) as (s & Hs & Hne). exists s.
      split; [done|by apply bool_decide_eq_false_2]. }
    rewrite (Hbreak (Some "online"%string) Hon); [done|].
    by apply bool_decide_eq_true_2.
  - intros Hnone. rewrite poll_exhausted; [done|].
    intros j Hj. destruct (Hnone j Hj) as (s & Hs & Hne). exists s.
    split; [done|by apply bool_decide_eq_false_2].
  - intros k Hk Hbefore.
    destruct (poll_first
                (λ c, match c with Some c => bool_decide (0 < c) | None => false end)
                current 0 10 k Hk) as [Hraise Hbreak].
    { intros j Hj. destruct (Hbefore j Hj) as (r & Hr & Hle). exists r.
      split; [done|by apply Hnot]. }
    split.
    + intros c Hc Hpos. rewrite (Hbreak (Some c) Hc); [done|].
      by apply bool_decide_eq_true_2.
    + intros Hnone. by rewrite (Hraise Hnone).
  - intros Hnone. rewrite poll_exhausted; [done|].
    intros j Hj. destruct (Hnone j Hj) as (r & Hr & Hle). exists r.
    split; [done|by apply Hnot].
Qed.

Lemma command_waits_witness :
  start_charging_poll
    (λ k, if (k <? 2)%nat then Some (Some 0) else if (k =? 2)%nat then None
          else Some (Some 16))
  = (20, PollRaised).
Proof.
  refine (proj2 (proj1 (proj2 (proj2 (proj2 (command_waits (λ _, None) _))))
                   2%nat _ _) eq_refl).
  - lia.
  - intros j Hj. exists (Some 0). split.
    + do 2 (destruct j as [|j]; [reflexivity|]). lia.
    + intros c [= <-]. lia.
Defined.

(** ** Blocked slots and the policy *)




(** ** The branches of the chain and what they send *)

Lemma do_calls_sent raises calls c :
  c ∈ (do_calls raises calls).1 → c ∈ calls.
Proof.
  induction calls as [|c' calls IH]; cbn; [done|].
  destruct (match c' with SetChargeLimit _ => false | _ => raises c' end);
    [by intros ?%elem_of_nil|].
  destruct (do_calls raises calls) as [done f]. cbn in *.
  rewrite !elem_of_cons. tauto.
Qed.

Lemma do_calls_return raises calls :
  (∀ c, c ∈ calls → (∀ l, c ≠ SetChargeLimit l) → raises c = false) →
  do_calls raises calls = (calls, None).
Proof.
  induction calls as [|c calls IH]; intros Hall; cbn; [done|].
  assert (match c with SetChargeLimit _ => false | _ => raises c end = false) as ->.
  { destruct c; try done; apply Hall; try done; apply elem_of_cons; by left. }
  rewrite IH; [done|]. intros c' Hc'. apply Hall. apply elem_of_cons. by right.
Qed.

Lemma charge_branch_run cfg calls amps cardata b limit divides :
  let r := charge_branch cfg calls amps cardata b limit divides in
  run_branch r = b
  ∧ (∀ c, c ∈ sent r → c ∈ [WakeUp; InverterIdle; SetChargeLimit limit; StartCharging])
  ∧ (∀ online,
       status_online calls = Some online →
       (∀ c, c ∈ charge_to cfg online cardata limit →
             (∀ l, c ≠ SetChargeLimit l) → raises calls c = false) →
       (divides = true → amps ≠ 0) →
       sent r = charge_to cfg online cardata limit ∧ failure r = None).
Proof.
  unfold charge_branch.
  destruct (divides && bool_decide (amps = 0)) eqn:Hdiv.
  { cbn. split; [done|]. split; [by intros c ?%elem_of_nil|].
    intros online _ _ Hamps.
    apply andb_true_iff in Hdiv as [-> Hz%bool_decide_eq_true]. by destruct Hamps. }
  destruct (status_online calls) as [online|].
  2: { cbn. split; [done|]. split; [by intros c ?%elem_of_nil|]. done. }
  destruct (do_calls (raises calls) (charge_to cfg online cardata limit))
    as [done f] eqn:Hdo.
  cbn. split; [done|]. split.
  - intros c Hc.
    assert (c ∈ charge_to cfg online cardata limit) as Hin.
    { apply (do_calls_sent (raises calls)). by rewrite Hdo. }
    apply charge_to_elem in Hin. rewrite !elem_of_cons. naive_solver.
  - intros online' [= <-] Hret _. rewrite do_calls_return in Hdo by done.
    by injection Hdo as <- <-.
Qed.

(** C3. The chain takes the first branch whose condition holds, in the
    order event driven charge, minimum floor, cheap, very cheap, no window.
    A charging branch sends nothing but the wake up, the idle mode of the
    home battery, its own limit and the start of the charge; when the
    status of the car is read and no call raises (and [CHARGE_AMPS_MAX] is
    not 0 in the branches that divide by it), it sends the wake up if the
    car is not online, the idle mode if there is an inverter, its limit if
    the car shows another one, and the start if the car does not charge,
    in this order. In particular, below the minimum and below
    [charge_needed] in a reserved current hour, the chain takes the event
    driven branch: the only limit it sends is [charge_needed], which is
    then the limit of the car, and not [CHARGE_MINIMUM]. *)
Theorem policy_priority cfg calls CHARGE_AMPS_MAX cardata charge_needed now prices :
  let event :=
    battery_level cardata < charge_needed
    ∧ ∃ p, p ∈ prices ∧ datetime p ≤ now < datetime p + 3600 ∧ charge p = RESERVED in
  let floor := battery_level cardata < CHARGE_MINIMUM cfg in
  let cheap p0 := level p0 = "CHEAP"%string ∧ battery_level cardata < CHARGE_CHEAP cfg in
  let very p0 :=
    level p0 = "VERY_CHEAP"%string ∧ battery_level cardata < CHARGE_VERY_CHEAP cfg in
  let body (online : bool) (l : Z) : list Command :=
    (if online then [] else [WakeUp])
    ++ (if inverter_host cfg then [InverterIdle] else [])
    ++ (if bool_decide (battery_limit cardata ≠ l) then [SetChargeLimit l] else [])
    ++ (if bool_decide (charge_rate cardata = 0) then [StartCharging] else []) in
  let stop : list Command :=
    (if bool_decide (0 < charge_rate cardata) then [StopCharging] else [])
    ++ (if inverter_host cfg then [InverterActive] else []) in
  let return_all (cmds : list Command) : Prop :=
    ∀ c, c ∈ cmds → (∀ l, c ≠ SetChargeLimit l) → raises calls c = false in
  let result := policy_run cfg calls CHARGE_AMPS_MAX cardata charge_needed now prices in
  let charges (b : Branch) (l : Z) (divides : bool) : Prop :=
    ∃ r, result = Ok r
         ∧ run_branch r = b
         ∧ (∀ c, c ∈ sent r → c ∈ [WakeUp; InverterIdle; SetChargeLimit l; StartCharging])
         ∧ (∀ online, status_online calls = Some online →
                      return_all (body online l) →
                      (divides = true → CHARGE_AMPS_MAX ≠ 0) →
                      sent r = body online l ∧ failure r = None) in
  (event → charges EventDriven charge_needed false)
  ∧ (¬ event → floor → charges MinimumFloor (CHARGE_MINIMUM cfg) true)
  ∧ (∀ p0 rest, prices = p0 :: rest → ¬ event → ¬ floor →
       (cheap p0 → charges Cheap (CHARGE_CHEAP cfg) true)
       ∧ (¬ cheap p0 → very p0 → charges VeryCheap (CHARGE_VERY_CHEAP cfg) true)
       ∧ (¬ cheap p0 → ¬ very p0 →
          ∃ r, result = Ok r
               ∧ run_branch r = NoWindow
               ∧ (∀ c, c ∈ sent r → c ∈ [StopCharging; InverterActive])
               ∧ (return_all stop → sent r = stop ∧ failure r = None)))
  ∧ (floor → event →
     ∃ r, result = Ok r
          ∧ run_branch r = EventDriven
          ∧ (∀ l, SetChargeLimit l ∈ sent r → l = charge_needed)
          ∧ (∀ online, status_online calls = Some online →
                       return_all (body online charge_needed) →
                       sent r = body online charge_needed
                       ∧ failure r = None
                       ∧ limit_after (sent r) (battery_limit cardata) = charge_needed
                       ∧ (battery_limit cardata ≠ charge_needed →
                          SetChargeLimit charge_needed ∈ sent r)
                       ∧ (charge_rate cardata = 0 → StartCharging ∈ sent r))).
Proof.
  intros event floor cheap very body stop return_all result charges.
  assert (∀ b l divides,
            result = Ok (charge_branch cfg calls CHARGE_AMPS_MAX cardata b l divides) →
            charges b l divides) as Hcharges.
  { intros b l divides Hres. eexists. split; [exact Hres|].
    apply charge_branch_run. }
  assert (event → bool_decide (battery_level cardata < charge_needed)
                  && charge_slot now prices = true) as Hyes.
  { intros [Hlt Hslot%charge_slot_true]. by rewrite Hslot, bool_decide_eq_true_2. }
  assert (¬ event → bool_decide (battery_level cardata < charge_needed)
                    && charge_slot now prices = false) as Hnot.
  { intros Hne. apply not_true_is_false.
    intros [Hlt%bool_decide_eq_true Hslot%charge_slot_true]%andb_true_iff.
    by apply Hne. }
  assert (event → charges EventDriven charge_needed false) as Hevent.
  { intros He. apply Hcharges. unfold result, policy_run. by rewrite (Hyes He). }
  split; [exact Hevent|]. split; [|split].
  - intros Hne Hfloor. apply Hcharges. unfold result, policy_run.
    by rewrite (Hnot Hne), bool_decide_eq_true_2.
  - intros p0 rest -> Hne Hnf.
    assert (result
            = if bool_decide (level p0 = "CHEAP"%string)
                 && bool_decide (battery_level cardata < CHARGE_CHEAP cfg)
              then Ok (charge_branch cfg calls CHARGE_AMPS_MAX cardata Cheap
                         (CHARGE_CHEAP cfg) true)
              else if bool_decide (level p0 = "VERY_CHEAP"%string)
                      && bool_decide (battery_level cardata < CHARGE_VERY_CHEAP cfg)
              then Ok (charge_branch cfg calls CHARGE_AMPS_MAX cardata VeryCheap
                         (CHARGE_VERY_CHEAP cfg) true)
              else let '(done, f) := do_calls (raises calls) (stop_charge cfg cardata) in
                   Ok (mkPolicyRun NoWindow done f)) as Hres.
    { unfold result, policy_run.
      by rewrite (Hnot Hne), (bool_decide_eq_false_2 (_ < CHARGE_MINIMUM cfg)). }
    assert (¬ cheap p0 →
            bool_decide (level p0 = "CHEAP"%string)
            && bool_decide (battery_level cardata < CHARGE_CHEAP cfg) = false) as Hnc.
    { intros Hn. apply not_true_is_false.
      intros [?%bool_decide_eq_true ?%bool_decide_eq_true]%andb_true_iff.
      by apply Hn. }
    assert (¬ very p0 →
            bool_decide (level p0 = "VERY_CHEAP"%string)
            && bool_decide (battery_level cardata < CHARGE_VERY_CHEAP cfg) = false)
      as Hnv.
    { intros Hn. apply not_true_is_false.
      intros [?%bool_decide_eq_true ?%bool_decide_eq_true]%andb_true_iff.
      by apply Hn. }
    split; [|split].
    + intros [Hl Hb]. apply Hcharges. rewrite Hres.
      by rewrite (bool_decide_eq_true_2 (level p0 = "CHEAP"%string)),
           (bool_decide_eq_true_2 (_ < CHARGE_CHEAP cfg)).
    + intros Hn [Hl Hb]. apply Hcharges. rewrite Hres, (Hnc Hn).
      by rewrite (bool_decide_eq_true_2 (level p0 = "VERY_CHEAP"%string)),
           (bool_decide_eq_true_2 (_ < CHARGE_VERY_CHEAP cfg)).
    + intros Hn Hn'. rewrite Hres, (Hnc Hn), (Hnv Hn').
      destruct (do_calls (raises calls) (stop_charge cfg cardata)) as [done f] eqn:Hdo.
      eexists. split; [done|]. cbn. split; [done|]. split.
      * intros c Hc.
        assert (c ∈ stop_charge cfg cardata) as Hin.
        { apply (do_calls_sent (raises calls)). by rewrite Hdo. }
        apply stop_charge_elem in Hin. rewrite !elem_of_cons. naive_solver.
      * intros Hret. rewrite do_calls_return in Hdo by exact Hret.
        by injection Hdo as <- <-.
  - intros _ He. destruct (Hevent He) as (r & Hr & Hb & Hsent & Hall).
    exists r. split; [done|]. split; [done|]. split.
    + intros l Hl. apply Hsent in Hl. rewrite !elem_of_cons, elem_of_nil in Hl.
      naive_solver.
    + intros online Hst Hret. destruct (Hall online Hst Hret) as [-> ->]; [done|].
      split; [done|]. split; [done|]. split; [|split].
      * change (body online charge_needed)
          with (charge_to cfg online cardata charge_needed).
        rewrite limit_after_charge_to.
        destruct (decide (battery_limit cardata = charge_needed)) as [Heq|Hne].
        -- by rewrite bool_decide_eq_false_2 by (intros H; by apply H).
        -- by rewrite bool_decide_eq_true_2.
      * intros Hne. unfold body. rewrite !elem_of_app.
        rewrite (bool_decide_eq_true_2 (battery_limit cardata ≠ _)) by done.
        right. right. left. apply elem_of_cons. by left.
      * intros Hrate. unfold body. rewrite !elem_of_app.
        rewrite (bool_decide_eq_true_2 (charge_rate cardata = _)) by done.
        right. right. right. apply elem_of_cons. by left.
Qed.

Lemma policy_priority_witness :
  ∃ r, policy_run default_config quiet_calls 13 (cardata first_cycle) 60 600 reserved_now
       = Ok r
       ∧ run_branch r = EventDriven
       ∧ sent r = [InverterIdle; SetChargeLimit 60; StartCharging]
       ∧ failure r = None
       ∧ limit_after (sent r) 50 = 60.
Proof.
  destruct (proj2 (proj2 (proj2
              (policy_priority default_config quiet_calls 13 (cardata first_cycle)
                 60 600 reserved_now))))
    as (r & Hr & Hb & _ & Hrun).
  - reflexivity.
  - split; [reflexivity|].
    exists (mkSlot (hour 0) "EXPENSIVE" (30 # 100) RESERVED).
    split; [apply (list_elem_of_lookup_2 _ 0%nat); reflexivity|].
    unfold hour. cbn. split; [lia|reflexivity].
  - exists r. split; [exact Hr|]. split; [exact Hb|].
    destruct (Hrun true eq_refl) as (Hs & Hf & Hl & _); [by intros c _ _|].
    split; [exact Hs|]. split; [exact Hf|exact Hl].
Defined.

(** When the status is read and no call raises, the run sends the commands
    of [policy]. *)
Lemma policy_run_returns cfg calls amps cardata charge_needed now prices online
    b limit cmds :
  status_online calls = Some online →
  (∀ c, raises calls c = false) → amps ≠ 0 →
  policy cfg online cardata charge_needed now prices = Ok (b, limit, cmds) →
  policy_run cfg calls amps cardata charge_needed now prices
  = Ok (mkPolicyRun b cmds None).
Proof.
  intros Hst Hret Hamps. unfold policy, policy_run, charge_branch.
  rewrite Hst, (bool_decide_eq_false_2 (amps = 0)), andb_false_r by done.
  cbn [andb].
  repeat (destruct (_ && _) || case_bool_decide || destruct prices as [|p0 rest]);
    try done; intros [= <- <- <-];
    by rewrite do_calls_return by (intros; apply Hret).
Qed.
